(** * A lexer, recursive-descent parser and tree-walking interpreter
    for assignment programs: shallow embedding of [index.py].

    Python strings are modelled as lists of 8-bit characters, read as the
    code points U+0000 to U+00FF; token types, token texts and messages
    are [string]s.  Python [int] is [Z], Python [float] is the primitive
    binary64 [float].  Exceptions are values of [exn]; a function that may
    raise returns a [result].  The three classes keep their mutable
    fields in records that are passed explicitly.

    Two limits of the Python run-time are part of the model.  [int]
    refuses a text of more than [sys.get_int_max_str_digits()] digits,
    4300 unless the run-time is told otherwise.  The limit on the depth
    of the call stack is modelled for [Interpreter.evaluate], by
    [Interpreter.evaluate_within]; [Interpreter.evaluate], [Parser.parse]
    and [main] describe the runs that stay within that limit. *)

From Stdlib Require Import ZArith Ascii Floats DecimalString.
From stdpp Require Import gmap strings list.

(** ** Exceptions *)

Inductive exn :=
| SyntaxError (msg : string)
| ValueError (msg : string)
| NameError (msg : string)
| ZeroDivisionError
| OverflowError
| TypeError
| AttributeError
| RecursionError.

Inductive result (A : Type) :=
| Ok (a : A)
| Raise (e : exn).
Arguments Ok {A} a.
Arguments Raise {A} e.

(** ** Regular expressions, as far as [TOKEN_TYPES] uses them *)

Module Re.

(** One-character items of a pattern. *)
Inductive cls :=
| Chr (c : ascii)                      (* a literal, escaped or not *)
| Set_ (ranges : list (ascii * ascii)) (* [...], a member [c] is [(c, c)] *)
| Digit                                (* \d *)
| Word                                 (* \w *)
| Dot.                                 (* . *)

Inductive regex :=
| One (c : cls)
| Many (c : cls)                       (* c* *)
| Many1 (c : cls)                      (* c+ *)
| Seq (r1 r2 : regex).

Definition between (lo hi n : nat) : bool := (lo <=? n) && (n <=? hi).

(** [\d] on U+0000..U+00FF: the decimal digits. *)
Definition is_digit (a : ascii) : bool := between 48 57 (nat_of_ascii a).

(** [\w] on U+0000..U+00FF: alphanumeric characters and the underscore. *)
Definition is_word (a : ascii) : bool :=
  let n := nat_of_ascii a in
  between 48 57 n || between 65 90 n || (n =? 95) || between 97 122 n
  || (n =? 170) || between 178 179 n || (n =? 181) || between 185 186 n
  || between 188 190 n || between 192 214 n || between 216 246 n
  || between 248 255 n.

Definition in_cls (c : cls) (a : ascii) : bool :=
  match c with
  | Chr c => Ascii.eqb a c
  | Set_ ranges =>
      existsb (fun r => between (nat_of_ascii (fst r)) (nat_of_ascii (snd r))
                          (nat_of_ascii a)) ranges
  | Digit => is_digit a
  | Word => is_word a
  | Dot => negb (Ascii.eqb a "010")
  end.

(** Lengths of the matches of [c*] at the head of [s], longest first. *)
Fixpoint star (c : cls) (s : list ascii) : list nat :=
  match s with
  | a :: t => if in_cls c a then map S (star c t) ++ [0] else [0]
  | [] => [0]
  end.

(** Lengths of all matches of [r] at the head of [s], in the order a
    backtracking matcher tries them. *)
Fixpoint ends (r : regex) (s : list ascii) : list nat :=
  match r with
  | One c =>
      match s with
      | a :: _ => if in_cls c a then [1] else []
      | [] => []
      end
  | Many c => star c s
  | Many1 c =>
      match s with
      | a :: t => if in_cls c a then map S (star c t) else []
      | [] => []
      end
  | Seq r1 r2 =>
      flat_map (fun n => map (Nat.add n) (ends r2 (drop n s))) (ends r1 s)
  end.

(** [regex.match(code, pos)]: [Some (group(0), end())] or [None]. *)
Definition match_ (r : regex) (code : list ascii) (pos : nat)
  : option (list ascii * nat) :=
  match ends r (drop pos code) with
  | n :: _ => Some (take n (drop pos code), pos + n)
  | [] => None
  end.

(** A pattern none of whose matches is empty. *)
Fixpoint consuming (r : regex) : bool :=
  match r with
  | One _ | Many1 _ => true
  | Many _ => false
  | Seq r1 r2 => consuming r1 || consuming r2
  end.

End Re.

(** ** Tokens and the lexer *)

Record Token := { type : string; value : string }.

Definition TOKEN_TYPES : list (string * Re.regex) :=
  [ ("NUMBER", Re.Many1 Re.Digit);
    ("IDENTIFIER",
      Re.Seq (Re.One (Re.Set_ [("a", "z"); ("A", "Z"); ("_", "_")]%char))
             (Re.Many Re.Word));
    ("ASSIGN", Re.One (Re.Chr "="));
    ("PLUS", Re.One (Re.Chr "+"));
    ("MINUS", Re.One (Re.Chr "-"));
    ("MULTIPLY", Re.One (Re.Chr "*"));
    ("DIVIDE", Re.One (Re.Chr "/"));
    ("LPAREN", Re.One (Re.Chr "("));
    ("RPAREN", Re.One (Re.Chr ")"));
    ("NEWLINE", Re.One (Re.Chr "010"));
    ("SKIP", Re.Many1 (Re.Set_ [(" ", " "); ("009", "009")]%char));
    ("MISMATCH", Re.One Re.Dot) ].

(** NEWLINE tokens with the given texts. *)
Definition newlines (texts : list string) : list Token :=
  map (fun v => {| type := "NEWLINE"; value := v |}) texts.

Module Lexer.

Record t := { code : list ascii; pos : nat; tokens : list Token }.

Definition init (code : list ascii) : t :=
  {| code := code; pos := 0; tokens := [] |}.

(** The [for] loop over the table: the first pattern that matches at
    [pos], with the matched text and the end of the match. *)
Fixpoint first_match (table : list (string * Re.regex))
    (code : list ascii) (pos : nat) : option (string * list ascii * nat) :=
  match table with
  | (token_type, pattern) :: rest =>
      match Re.match_ pattern code pos with
      | Some (v, e) => Some (token_type, v, e)
      | None => first_match rest code pos
      end
  | [] => None
  end.

(** One iteration of the [while] loop, entered with [pos < len(code)]. *)
Definition step (table : list (string * Re.regex)) (self : t)
  : result unit * t :=
  match first_match table (code self) (pos self) with
  | Some (token_type, v, e) =>
      let toks :=
        if String.eqb token_type "SKIP" then tokens self
        else tokens self ++ [{| type := token_type;
                                value := String.string_of_list_ascii v |}] in
      (Ok tt, {| code := code self; pos := e; tokens := toks |})
  | None =>
      let c := match code self !! pos self with
               | Some c => String c EmptyString
               | None => EmptyString
               end in
      (Raise (SyntaxError ("Unexpected character: " +:+ c)), self)
  end.

(** [tokenize] over a given table; [None] when [fuel] iterations of the
    loop were not enough. *)
Fixpoint tokenize_loop (table : list (string * Re.regex)) (fuel : nat)
    (self : t) : option (result (list Token) * t) :=
  if pos self <? length (code self) then
    match fuel with
    | 0 => None
    | S fuel =>
        match step table self with
        | (Ok _, self) => tokenize_loop table fuel self
        | (Raise e, self) => Some (Raise e, self)
        end
    end
  else Some (Ok (tokens self), self).

Definition tokenize_with (table : list (string * Re.regex)) (self : t)
  : option (result (list Token) * t) :=
  tokenize_loop table (length (code self) - pos self) self.

Definition tokenize (self : t) : option (result (list Token) * t) :=
  tokenize_with TOKEN_TYPES self.

(** A character that the last pattern of the table, and no earlier one,
    matches. *)
Definition catch_all_only (a : ascii) : bool :=
  match first_match TOKEN_TYPES [a] 0 with
  | Some (token_type, _, _) => String.eqb token_type "MISMATCH"
  | None => false
  end.

(** Every pattern of the table matches non-empty text only. *)
Definition all_consuming (table : list (string * Re.regex)) : bool :=
  forallb (fun p => Re.consuming (snd p)) table.

End Lexer.

(** ** Built-ins: [repr] and [int] on strings *)

Module Py.

Definition hex_digit (n : nat) : ascii :=
  ascii_of_nat (if n <? 10 then 48 + n else 87 + n).

(** [str.isprintable] on U+0000..U+00FF. *)
Definition printable (n : nat) : bool :=
  Re.between 32 126 n || (Re.between 161 255 n && negb (n =? 173)).

Definition repr_char (quote : ascii) (c : ascii) : list ascii :=
  let n := nat_of_ascii c in
  if Ascii.eqb c quote || Ascii.eqb c "092" then ["092"; c]%char
  else if Ascii.eqb c "009" then ["092"; "t"]%char
  else if Ascii.eqb c "010" then ["092"; "n"]%char
  else if Ascii.eqb c "013" then ["092"; "r"]%char
  else if printable n then [c]
  else ["092"; "x"; hex_digit (n / 16); hex_digit (n mod 16)]%char.

(** [repr(s)] for a [str]: single quotes, unless the text holds a single
    quote and no double quote. *)
Definition repr (s : string) : string :=
  let cs := String.list_ascii_of_string s in
  let quote :=
    if existsb (Ascii.eqb "039") cs && negb (existsb (Ascii.eqb "034") cs)
    then "034"%char else "039"%char in
  String.string_of_list_ascii
    ([quote] ++ flat_map (repr_char quote) cs ++ [quote]).

(** The blanks [int] strips from both ends of its argument. *)
Definition is_space (c : ascii) : bool :=
  let n := nat_of_ascii c in
  Re.between 9 13 n || (n =? 32) || (n =? 133) || (n =? 160).

Fixpoint lstrip (s : list ascii) : list ascii :=
  match s with
  | c :: t => if is_space c then lstrip t else s
  | [] => []
  end.

Definition digit_val (c : ascii) : Z := Z.of_nat (nat_of_ascii c) - 48.

(** [str(n)] for an [int] that is not negative. *)
Definition str (n : nat) : string := NilEmpty.string_of_uint (Nat.to_uint n).

(** [sys.get_int_max_str_digits()], as the run-time starts. *)
Definition int_max_str_digits : nat := 4300.

(** What [int] makes of a text: a value, a text that is no literal, or a
    literal of [digits] digits, more than the limit. *)
Inductive literal :=
| Value (n : Z)
| Invalid
| TooLong (digits : nat).

(** The digits after the first one; single underscores may separate
    digits. [count] is the number of digits read and [underscore] tells
    that the previous character was an underscore. The run of digits is
    read to its end and its length checked before what follows it is
    looked at. *)
Fixpoint digits (acc : Z) (count : nat) (underscore : bool) (s : list ascii)
  : literal :=
  match s with
  | [] =>
      if underscore then Invalid
      else if int_max_str_digits <? count then TooLong count
      else Value acc
  | c :: t =>
      if Re.is_digit c then digits (10 * acc + digit_val c) (S count) false t
      else if Ascii.eqb c "_" then
        if underscore then Invalid else digits acc count true t
      else if underscore then Invalid
      else if int_max_str_digits <? count then TooLong count
      else Invalid
  end.

Definition unsigned (s : list ascii) : literal :=
  match s with
  | c :: t => if Re.is_digit c then digits (digit_val c) 1 false t else Invalid
  | [] => Invalid
  end.

Definition negate (l : literal) : literal :=
  match l with
  | Value n => Value (- n)
  | _ => l
  end.

Definition int_literal (s : string) : literal :=
  match rev (lstrip (rev (lstrip (String.list_ascii_of_string s)))) with
  | "+"%char :: t => unsigned t
  | "-"%char :: t => negate (unsigned t)
  | t => unsigned t
  end.

(** [int(s)] for a [str]; [None] stands for [ValueError]. *)
Definition int (s : string) : option Z :=
  match int_literal s with
  | Value n => Some n
  | _ => None
  end.

(** The message of the [ValueError] of [int(s)]; the [repr] of the text
    is cut at 200 characters. *)
Definition int_error (s : string) : string :=
  match int_literal s with
  | TooLong n =>
      "Exceeds the limit (" +:+ str int_max_str_digits
      +:+ " digits) for integer string conversion: value has " +:+ str n
      +:+ " digits; use sys.set_int_max_str_digits() to increase the limit"
  | _ =>
      "invalid literal for int() with base 10: "
      +:+ String.substring 0 200 (repr s)
  end.

End Py.

(** ** The abstract syntax tree *)

Inductive ASTNode :=
| Number (value : Z)
| Identifier (name : string)
| BinOp (left : ASTNode) (op : string) (right : ASTNode)
| Assign (identifier : ASTNode) (expr : ASTNode).

(** Trees built from numbers, names and binary operators only. *)
Fixpoint assign_free (node : ASTNode) : bool :=
  match node with
  | Number _ | Identifier _ => true
  | BinOp l _ r => assign_free l && assign_free r
  | Assign _ _ => false
  end.

(** An assignment of such a tree to a name. *)
Definition statement (node : ASTNode) : bool :=
  match node with
  | Assign (Identifier _) e => assign_free e
  | _ => false
  end.

(** [Token.__repr__] *)
Definition Token_repr (self : Token) : string :=
  "Token(" +:+ type self +:+ ", " +:+ Py.repr (value self) +:+ ")".

(** [Number.__init__], which converts the token text. *)
Definition Number_init (value : string) : result ASTNode :=
  match Py.int value with
  | Some n => Ok (Number n)
  | None => Raise (ValueError (Py.int_error value))
  end.

(** ** The parser *)

Module Parser.

Record t := { tokens : list Token; pos : nat }.

Definition init (tokens : list Token) : t :=
  {| tokens := tokens; pos := 0 |}.

(** Methods run on the parser object and may raise; [None] tells that
    the fuel bounding the recursion ran out. *)
Definition M (A : Type) : Type := t -> option (result A * t).

Definition ret {A} (a : A) : M A := fun self => Some (Ok a, self).
Definition raise {A} (e : exn) : M A := fun self => Some (Raise e, self).
Definition out_of_fuel {A} : M A := fun _ => None.
Definition bind {A B} (m : M A) (f : A -> M B) : M B :=
  fun self =>
    match m self with
    | Some (Ok a, self) => f a self
    | Some (Raise e, self) => Some (Raise e, self)
    | None => None
    end.
Definition lift {A} (r : result A) : M A := fun self => Some (r, self).

Notation "'let*' x ':=' m 'in' k" := (bind m (fun x => k))
  (at level 10, x name, m at level 100, k at level 200).

(** The token under the cursor, or the end marker past the last token. *)
Definition peek (self : t) : Token :=
  match tokens self !! pos self with
  | Some tok => tok
  | None => {| type := "EOF"; value := EmptyString |}
  end.

Definition current_token : M Token := fun self => Some (Ok (peek self), self).

Definition advance (self : t) : t :=
  {| tokens := tokens self; pos := pos self + 1 |}.

Definition consume (expected_type : string) : M unit :=
  let* tok := current_token in
  if String.eqb (type tok) expected_type then
    fun self => Some (Ok tt, advance self)
  else
    raise (SyntaxError
             ("Expected " +:+ expected_type +:+ ", got " +:+ type tok)).

Definition identifier : M ASTNode :=
  let* token := current_token in
  if String.eqb (type token) "IDENTIFIER" then
    let* _ := consume "IDENTIFIER" in
    ret (Identifier (value token))
  else
    raise (SyntaxError ("Expected identifier, got " +:+ type token)).

Definition is_in (s : string) (l : list string) : bool :=
  existsb (String.eqb s) l.

Fixpoint factor (fuel : nat) : M ASTNode :=
  match fuel with
  | 0 => out_of_fuel
  | S fuel =>
      let* token := current_token in
      if String.eqb (type token) "NUMBER" then
        let* _ := consume "NUMBER" in
        lift (Number_init (value token))
      else if String.eqb (type token) "IDENTIFIER" then
        let* _ := consume "IDENTIFIER" in
        ret (Identifier (value token))
      else if String.eqb (type token) "LPAREN" then
        let* _ := consume "LPAREN" in
        let* node := expr fuel in
        let* _ := consume "RPAREN" in
        ret node
      else
        raise (SyntaxError ("Unexpected token: " +:+ Token_repr token))
  end

with term_loop (fuel : nat) (node : ASTNode) : M ASTNode :=
  match fuel with
  | 0 => out_of_fuel
  | S fuel =>
      let* tok := current_token in
      if is_in (type tok) ["MULTIPLY"; "DIVIDE"] then
        let op := value tok in
        let* _ := consume (type tok) in
        let* rhs := factor fuel in
        term_loop fuel (BinOp node op rhs)
      else ret node
  end

with term (fuel : nat) : M ASTNode :=
  match fuel with
  | 0 => out_of_fuel
  | S fuel =>
      let* node := factor fuel in
      term_loop fuel node
  end

with expr_loop (fuel : nat) (node : ASTNode) : M ASTNode :=
  match fuel with
  | 0 => out_of_fuel
  | S fuel =>
      let* tok := current_token in
      if is_in (type tok) ["PLUS"; "MINUS"] then
        let op := value tok in
        let* _ := consume (type tok) in
        let* rhs := term fuel in
        expr_loop fuel (BinOp node op rhs)
      else ret node
  end

with expr (fuel : nat) : M ASTNode :=
  match fuel with
  | 0 => out_of_fuel
  | S fuel =>
      let* node := term fuel in
      expr_loop fuel node
  end.

Definition assignment (fuel : nat) : M ASTNode :=
  let* identifier := identifier in
  let* _ := consume "ASSIGN" in
  let* expr := expr fuel in
  ret (Assign identifier expr).

Fixpoint parse_loop (fuel : nat) (statements : list ASTNode)
  : M (list ASTNode) :=
  match fuel with
  | 0 => out_of_fuel
  | S fuel =>
      let* tok := current_token in
      if negb (String.eqb (type tok) "EOF") then
        if String.eqb (type tok) "NEWLINE" then
          let* _ := consume "NEWLINE" in
          parse_loop fuel statements
        else
          let* node := assignment fuel in
          parse_loop fuel (statements ++ [node])
      else ret statements
  end.

(** Fuel that is enough with [n] tokens left to read. *)
Definition fuel_for (n : nat) : nat := 4 * n + 6.

Definition remaining (self : t) : nat := length (tokens self) - pos self.

(** The loop of [parse], entered with the statements gathered so far. *)
Definition parse_from (statements : list ASTNode) : M (list ASTNode) :=
  fun self => parse_loop (fuel_for (remaining self)) statements self.

Definition parse : M (list ASTNode) := parse_from [].

(** Two runs from the same state end alike, in a result and a state that
    satisfy [Q]. *)
Definition agree {A} (m m' : M A) (self : t) (Q : result A -> t -> Prop)
  : Prop :=
  exists r self', m self = Some (r, self') /\ m' self = Some (r, self')
                  /\ Q r self'.

(** What every method keeps: the token list, and a cursor that only moves
    forward; [P] holds of the node returned. *)
Definition post (self : t) (P : ASTNode -> Prop) (r : result ASTNode)
    (self' : t) : Prop :=
  tokens self' = tokens self /\ pos self <= pos self'
  /\ forall a, r = Ok a -> P a.

End Parser.

(** ** Values and the interpreter *)

Inductive val :=
| VInt (n : Z)
| VFloat (f : float)
| VNone.

Module Interpreter.

Record t := { variables : gmap string val }.

Definition init : t := {| variables := ∅ |}.

Definition Z2SF (n : Z) : spec_float :=
  match n with
  | Z0 => S754_zero false
  | Zpos p => S754_finite false p 0
  | Zneg p => S754_finite true p 0
  end.

Definition finite (x : spec_float) : result float :=
  match x with
  | S754_infinity _ => Raise OverflowError
  | _ => Ok (SF2Prim x)
  end.

(** [float(n)] for an [int]: the nearest binary64 number, ties to even. *)
Definition float_of_int (n : Z) : result float :=
  finite (binary_normalize prec emax n 0 false).

(** [a / b] on two [int]s: the quotient rounded once, ties to even. *)
Definition int_truediv (a b : Z) : result val :=
  if (b =? 0)%Z then Raise ZeroDivisionError
  else
    match finite (SFdiv prec emax (Z2SF a) (Z2SF b)) with
    | Ok f => Ok (VFloat f)
    | Raise e => Raise e
    end.

Definition as_float (v : val) : result float :=
  match v with
  | VInt n => float_of_int n
  | VFloat f => Ok f
  | VNone => Raise TypeError
  end.

(** The operand conversions shared by the four operators. *)
Definition floats (l r : val) (k : float -> float -> result val)
  : result val :=
  match as_float l with
  | Ok x =>
      match as_float r with
      | Ok y => k x y
      | Raise e => Raise e
      end
  | Raise e => Raise e
  end.

(** [left + right], [left - right] and [left * right]. *)
Definition arith (int_op : Z -> Z -> Z) (float_op : float -> float -> float)
    (l r : val) : result val :=
  match l, r with
  | VInt a, VInt b => Ok (VInt (int_op a b))
  | VNone, _ | _, VNone => Raise TypeError
  | _, _ => floats l r (fun x y => Ok (VFloat (float_op x y)))
  end.

(** [left / right] *)
Definition truediv (l r : val) : result val :=
  match l, r with
  | VInt a, VInt b => int_truediv a b
  | VNone, _ | _, VNone => Raise TypeError
  | _, _ =>
      floats l r (fun x y =>
        if PrimFloat.eqb y PrimFloat.zero then Raise ZeroDivisionError
        else Ok (VFloat (PrimFloat.div x y)))
  end.

Fixpoint evaluate (node : ASTNode) (self : t) : result val * t :=
  match node with
  | Number value => (Ok (VInt value), self)
  | Identifier name =>
      match variables self !! name with
      | Some v => (Ok v, self)
      | None =>
          (Raise (NameError ("Variable " +:+ name +:+ " not defined")), self)
      end
  | BinOp node_left op node_right =>
      match evaluate node_left self with
      | (Ok l, self) =>
          match evaluate node_right self with
          | (Ok r, self) =>
              (if String.eqb op "+" then arith Z.add PrimFloat.add l r
               else if String.eqb op "-" then
                 arith Z.sub PrimFloat.sub l r
               else if String.eqb op "*" then
                 arith Z.mul PrimFloat.mul l r
               else if String.eqb op "/" then truediv l r
               else Ok VNone, self)
          | (Raise e, self) => (Raise e, self)
          end
      | (Raise e, self) => (Raise e, self)
      end
  | Assign identifier expr =>
      match evaluate expr self with
      | (Ok value, self) =>
          match identifier with
          | Identifier name =>
              (Ok value,
               {| variables := <[name := value]> (variables self) |})
          | _ => (Raise AttributeError, self)
          end
      | (Raise e, self) => (Raise e, self)
      end
  end.

(** The names a tree reads, in the order of evaluation. *)
Fixpoint names (node : ASTNode) : list string :=
  match node with
  | Number _ => []
  | Identifier name => [name]
  | BinOp l _ r => names l ++ names r
  | Assign _ e => names e
  end.

Definition absent (self : t) (name : string) : bool :=
  match variables self !! name with
  | Some _ => false
  | None => true
  end.

(** The first name read by [node] that has no value in [self]. *)
Definition first_absent (self : t) (node : ASTNode) : option string :=
  find (absent self) (names node).

(** The exceptions of the arithmetic operators. *)
Definition arithmetic (e : exn) : bool :=
  match e with
  | ZeroDivisionError | OverflowError | TypeError => true
  | _ => false
  end.

(** The loop of the script over the statements: the results so far and
    the interpreter after the last statement run. *)
Fixpoint run (ast : list ASTNode) (self : t) : result (list val) * t :=
  match ast with
  | [] => (Ok [], self)
  | node :: rest =>
      match evaluate node self with
      | (Ok v, self) =>
          match run rest self with
          | (Ok vs, self) => (Ok (v :: vs), self)
          | (Raise e, self) => (Raise e, self)
          end
      | (Raise e, self) => (Raise e, self)
      end
  end.

(** The nesting of a tree: the number of calls of [evaluate], the
    outermost one included, that are open while its deepest node is
    evaluated. *)
Fixpoint height (node : ASTNode) : nat :=
  match node with
  | Number _ | Identifier _ => 1
  | BinOp l _ r => S (Nat.max (height l) (height r))
  | Assign _ e => S (height e)
  end.

(** [evaluate] under the run-time's limit on the depth of the call
    stack: [frames] is the number of nested calls of [evaluate] that the
    limit still admits, and a call beyond them raises [RecursionError]. *)
Fixpoint evaluate_within (frames : nat) (node : ASTNode) (self : t)
  : result val * t :=
  match frames with
  | 0 => (Raise RecursionError, self)
  | S frames =>
      match node with
      | Number value => (Ok (VInt value), self)
      | Identifier name =>
          match variables self !! name with
          | Some v => (Ok v, self)
          | None =>
              (Raise (NameError ("Variable " +:+ name +:+ " not defined")),
               self)
          end
      | BinOp node_left op node_right =>
          match evaluate_within frames node_left self with
          | (Ok l, self) =>
              match evaluate_within frames node_right self with
              | (Ok r, self) =>
                  (if String.eqb op "+" then arith Z.add PrimFloat.add l r
                   else if String.eqb op "-" then
                     arith Z.sub PrimFloat.sub l r
                   else if String.eqb op "*" then
                     arith Z.mul PrimFloat.mul l r
                   else if String.eqb op "/" then truediv l r
                   else Ok VNone, self)
              | (Raise e, self) => (Raise e, self)
              end
          | (Raise e, self) => (Raise e, self)
          end
      | Assign identifier expr =>
          match evaluate_within frames expr self with
          | (Ok value, self) =>
              match identifier with
              | Identifier name =>
                  (Ok value,
                   {| variables := <[name := value]> (variables self) |})
              | _ => (Raise AttributeError, self)
              end
          | (Raise e, self) => (Raise e, self)
          end
      end
  end.




End Interpreter.

(** ** The script: lexer, then parser, then interpreter *)

Record Output := {
  out_tokens : list Token;
  out_ast : list ASTNode;
  out_results : list val;
  out_variables : gmap string val
}.

Definition main (code : string) : option (result Output) :=
  match Lexer.tokenize (Lexer.init (String.list_ascii_of_string code)) with
  | Some (Ok tokens, _) =>
      match Parser.parse (Parser.init tokens) with
      | Some (Ok ast, _) =>
          match Interpreter.run ast Interpreter.init with
          | (Ok results, interpreter) =>
              Some (Ok {| out_tokens := tokens; out_ast := ast;
                          out_results := results;
                          out_variables := Interpreter.variables interpreter |})
          | (Raise e, _) => Some (Raise e)
          end
      | Some (Raise e, _) => Some (Raise e)
      | None => None
      end
  | Some (Raise e, _) => Some (Raise e)
  | None => None
  end.

(** ** Notions used to state further properties of the code *)

(** [pattern.fullmatch(s)]: some match of [r] takes all of [s]. *)
Definition fullmatch (r : Re.regex) (s : list ascii) : bool :=
  existsb (Nat.eqb (length s)) (Re.ends r s).

(** The characters the lexer drops: the class of the SKIP pattern. *)
Definition blank (a : ascii) : bool :=
  Ascii.eqb a " " || Ascii.eqb a "009".

(** The text of a token, as characters. *)
Definition text (tok : Token) : list ascii :=
  String.list_ascii_of_string (value tok).

(** The value of a run of decimal digits, read after [acc]. *)
Definition decimal (acc : Z) (s : list ascii) : Z :=
  fold_left (fun n c => (10 * n + Py.digit_val c)%Z) s acc.

(** A token as [tokenize] makes it under [table]: its type is a row of
    the table other than SKIP and its text matches the row's pattern. *)
Definition emitted_by (table : list (string * Re.regex)) (tok : Token)
  : Prop :=
  type tok <> "SKIP"
  /\ exists pattern, (type tok, pattern) ∈ table
                     /\ fullmatch pattern (text tok) = true.

(** The characters of the classes a pattern is built from. *)
Fixpoint chars (r : Re.regex) (a : ascii) : bool :=
  match r with
  | Re.One c | Re.Many c | Re.Many1 c => Re.in_cls c a
  | Re.Seq r1 r2 => chars r1 a || chars r2 a
  end.

(** The value of a tree of numbers, names, [+], [-] and [*] in the
    integers, with the names read from [ints]; [None] for a name without
    a value and for any other tree. *)
Fixpoint integer (ints : gmap string Z) (node : ASTNode) : option Z :=
  match node with
  | Number n => Some n
  | Identifier name => ints !! name
  | BinOp l op r =>
      match integer ints l, integer ints r with
      | Some a, Some b =>
          if String.eqb op "+" then Some (a + b)%Z
          else if String.eqb op "-" then Some (a - b)%Z
          else if String.eqb op "*" then Some (a * b)%Z
          else None
      | _, _ => None
      end
  | Assign _ _ => None
  end.

(** The text the lexer gives a token of an operator type. *)
Definition operator_of (token_type : string) : option string :=
  if String.eqb token_type "PLUS" then Some "+"
  else if String.eqb token_type "MINUS" then Some "-"
  else if String.eqb token_type "MULTIPLY" then Some "*"
  else if String.eqb token_type "DIVIDE" then Some "/"
  else None.

(** A run of decimal digits that is not empty. *)
Definition digit_run (s : list ascii) : Prop :=
  s <> [] /\ Forall (fun a => Re.is_digit a = true) s.

(** What the parser relies on in a token: a NUMBER made of digits, an
    operator with its own text. *)
Definition well_lexed (tok : Token) : Prop :=
  (type tok = "NUMBER" -> digit_run (text tok))
  /\ (forall op, operator_of (type tok) = Some op -> value tok = op).

(** The [ValueError] of [int] on a run of [n] digits, [n] above the
    limit. *)
Definition too_many_digits (n : nat) : exn :=
  ValueError
    ("Exceeds the limit (4300 digits) for integer string conversion: "
     +:+ "value has " +:+ Py.str n
     +:+ " digits; use sys.set_int_max_str_digits() to increase the limit").

(** [e] is the exception of [Number.__init__] on a NUMBER token of
    [toks] that has more digits than [int] accepts. *)
Definition digit_limit (toks : list Token) (e : exn) : Prop :=
  exists tok,
    tok ∈ toks /\ type tok = "NUMBER"
    /\ Py.int_max_str_digits < length (text tok)
    /\ e = too_many_digits (length (text tok)).

(** Trees of numbers, names and the four operators. *)
Fixpoint expression (node : ASTNode) : bool :=
  match node with
  | Number _ | Identifier _ => true
  | BinOp l op r =>
      Parser.is_in op ["+"; "-"; "*"; "/"] && expression l && expression r
  | Assign _ _ => false
  end.

(** An assignment of such a tree to a name. *)
Definition assignment_of_expression (node : ASTNode) : bool :=
  match node with
  | Assign (Identifier _) e => expression e
  | _ => false
  end.

(** The exceptions of the grammar, of the names and of the numbers. *)
Definition script_exception (e : exn) : bool :=
  match e with
  | SyntaxError _ | NameError _ | ZeroDivisionError | OverflowError => true
  | _ => false
  end.

Definition is_syntax_error (e : exn) : bool :=
  match e with
  | SyntaxError _ => true
  | _ => false
  end.

(** Partial correctness of a method of the parser: whenever it ends, the
    result and the state satisfy [Q]. *)
Definition sound {A} (m : Parser.M A) (self : Parser.t)
    (Q : result A -> Parser.t -> Prop) : Prop :=
  forall r self', m self = Some (r, self') -> Q r self'.

(** What a method of the parser that returns a tree guarantees on
    well-lexed tokens. *)
Definition good (self : Parser.t) (r : result ASTNode) (s : Parser.t)
  : Prop :=
  Parser.tokens s = Parser.tokens self
  /\ match r with
     | Ok node => expression node = true
     | Raise e => is_syntax_error e = true \/ digit_limit (Parser.tokens self) e
     end.

(** Every variable holds an [int] or a [float]. *)
Definition numeric (self : Interpreter.t) : Prop :=
  forall name v, Interpreter.variables self !! name = Some v -> v <> VNone.

(** * Properties *)

(** ** Matching *)

Section Matching.

Import Re.

Lemma star_bound c s n : n ∈ star c s -> n <= length s.
Proof.
  revert n; induction s as [|a s IH]; intros n; simpl.
  - intros ->%list_elem_of_singleton. lia.
  - destruct (in_cls c a).
    + rewrite elem_of_app, list_elem_of_fmap.
      intros [(m & -> & Hm) | ->%list_elem_of_singleton];
        [apply IH in Hm|]; lia.
    + intros ->%list_elem_of_singleton. lia.
Qed.

Lemma ends_bound r : forall s n, n ∈ ends r s -> n <= length s.
Proof.
  induction r as [c|c|c|r1 IH1 r2 IH2]; intros s n; simpl.
  - destruct s as [|a s]; [by intros ?%elem_of_nil|].
    destruct (in_cls c a); [|by intros ?%elem_of_nil].
    intros ->%list_elem_of_singleton. simpl. lia.
  - apply star_bound.
  - destruct s as [|a s]; [by intros ?%elem_of_nil|].
    destruct (in_cls c a); [|by intros ?%elem_of_nil].
    intros (m & -> & Hm%star_bound)%(proj1 (list_elem_of_fmap _ _ _)).
    simpl. lia.
  - intros (n1 & Hin & H1)%list_elem_of_bind.
    apply list_elem_of_fmap in Hin as (n2 & -> & H2).
    apply IH1 in H1. apply IH2 in H2.
    rewrite length_drop in H2. lia.
Qed.

Lemma ends_consuming r :
  consuming r = true -> forall s n, n ∈ ends r s -> 1 <= n.
Proof.
  induction r as [c|c|c|r1 IH1 r2 IH2]; simpl; intros Hc s n; try done.
  - destruct s as [|a s]; [by intros ?%elem_of_nil|].
    destruct (in_cls c a); [|by intros ?%elem_of_nil].
    intros ->%list_elem_of_singleton. lia.
  - destruct s as [|a s]; [by intros ?%elem_of_nil|].
    destruct (in_cls c a); [|by intros ?%elem_of_nil].
    intros (m & -> & _)%(proj1 (list_elem_of_fmap _ _ _)). lia.
  - intros (n1 & Hin & H1)%list_elem_of_bind.
    apply list_elem_of_fmap in Hin as (n2 & -> & H2).
    apply orb_true_iff in Hc as [Hc|Hc].
    + specialize (IH1 Hc _ _ H1). lia.
    + specialize (IH2 Hc _ _ H2). lia.
Qed.

Lemma match_progress r code pos v e :
  consuming r = true -> match_ r code pos = Some (v, e) ->
  pos < e <= length code.
Proof.
  unfold match_. intros Hc.
  destruct (ends r (drop pos code)) as [|n l] eqn:E; [done|].
  intros [= <- <-].
  assert (Hn : n ∈ ends r (drop pos code)) by (rewrite E; left).
  pose proof (ends_bound _ _ _ Hn) as Hb. rewrite length_drop in Hb.
  pose proof (ends_consuming _ Hc _ _ Hn). lia.
Qed.

(** At a character, a one-character pattern matches exactly when the
    character is in its class. *)
Lemma match_one c pre a post :
  match_ (One c) (pre ++ a :: post) (length pre) =
  if in_cls c a then Some ([a], length pre + 1) else None.
Proof.
  unfold match_. rewrite drop_app_length. simpl.
  by destruct (in_cls c a).
Qed.

End Matching.

(** ** The lexer *)

Section LexerFacts.

Import Lexer.

Lemma first_match_progress table code pos ty v e :
  all_consuming table = true ->
  first_match table code pos = Some (ty, v, e) ->
  pos < e <= length code.
Proof.
  induction table as [|[ty' r] table IH]; simpl; [done|].
  intros [Hr Ht]%andb_true_iff.
  destruct (Re.match_ r code pos) as [[v' e']|] eqn:E.
  - intros [= <- <- <-]. eapply match_progress; eauto.
  - auto.
Qed.

(** The table leaves no character unmatched: the newline has its own
    pattern and the last pattern takes every other character. *)
Lemma first_match_total pre a post :
  exists ty v e,
    first_match TOKEN_TYPES (pre ++ a :: post) (length pre) = Some (ty, v, e).
Proof.
  unfold TOKEN_TYPES. simpl.
  repeat match goal with
  | |- context [Re.match_ ?r ?c ?p] =>
      destruct (Re.match_ r c p) as [[? ?]|] eqn:?; [by eauto|]
  end.
  rewrite match_one in *. simpl in *.
  destruct (Ascii.eqb a "010"); simplify_eq.
Qed.

Lemma step_progress pre a post toks :
  exists self',
    step TOKEN_TYPES {| code := pre ++ a :: post; pos := length pre;
                        tokens := toks |} = (Ok tt, self')
    /\ code self' = pre ++ a :: post
    /\ length pre < pos self' <= length (pre ++ a :: post).
Proof.
  unfold step. cbn [code pos tokens].
  destruct (first_match_total pre a post) as (ty & v & e & E).
  rewrite E. eexists; split; [done|]. split; [done|]. cbn [pos].
  eapply first_match_progress; [|exact E]. done.
Qed.

Lemma split_at {A} (l : list A) (n : nat) :
  n < length l -> exists pre a post, l = pre ++ a :: post /\ length pre = n.
Proof.
  intros Hn. destruct (lookup_lt_is_Some_2 l n Hn) as [a Ha].
  exists (take n l), a, (drop (S n) l). split.
  - by rewrite take_drop_middle.
  - rewrite length_take. lia.
Qed.

Lemma tokenize_loop_total fuel : forall self,
  length (code self) - pos self <= fuel ->
  exists self',
    tokenize_loop TOKEN_TYPES fuel self = Some (Ok (tokens self'), self')
    /\ code self' = code self
    /\ pos self' = Nat.max (pos self) (length (code self)).
Proof.
  induction fuel as [|fuel IH]; intros self Hf.
  - assert (E : (pos self <? length (code self)) = false)
      by (apply Nat.ltb_ge; lia).
    simpl. rewrite E. exists self. split; [done|]. split; [done|].
    apply Nat.ltb_ge in E. lia.
  - simpl. destruct (pos self <? length (code self)) eqn:E.
    + apply Nat.ltb_lt in E.
      destruct (split_at _ _ E) as (pre & a & post & Hc & Hp).
      destruct self as [c p toks]. simpl in *. subst c p.
      destruct (step_progress pre a post toks) as (self' & -> & Hc' & Hp').
      destruct (IH self') as (self'' & -> & Hc'' & Hp'').
      { rewrite Hc'. lia. }
      exists self''. split; [done|]. split; [congruence|].
      rewrite Hp'', Hc'. lia.
    + exists self. split; [done|]. split; [done|].
      apply Nat.ltb_ge in E. lia.
Qed.

End LexerFacts.

(** C10: [tokenize] ends on every input. Every pattern of the table
    matches at least one character; at a cursor inside the source one
    pattern of the table matches, so an iteration of the loop raises
    nothing and moves the cursor strictly forward, never past the end;
    and [tokenize], on a lexer at any cursor, returns its token list with
    the cursor at the end of the source. *)
Theorem tokenize_terminates :
  Lexer.all_consuming TOKEN_TYPES = true
  /\ (forall pre a post toks, exists self',
        Lexer.step TOKEN_TYPES
          {| Lexer.code := pre ++ a :: post; Lexer.pos := length pre;
             Lexer.tokens := toks |} = (Ok tt, self')
        /\ Lexer.code self' = pre ++ a :: post
        /\ length pre < Lexer.pos self' <= length (pre ++ a :: post))
  /\ (forall self, exists self',
        Lexer.tokenize self = Some (Ok (Lexer.tokens self'), self')
        /\ Lexer.code self' = Lexer.code self
        /\ Lexer.pos self' =
             Nat.max (Lexer.pos self) (length (Lexer.code self))).
Proof.
  split; [done|]. split; [apply step_progress|].
  intros self. apply tokenize_loop_total.
  unfold Lexer.tokenize, Lexer.tokenize_with. done.
Qed.

(** C1, as the code behaves: a character that only the catch-all pattern
    matches raises nothing. The iteration of the loop at such a character
    appends a token of type MISMATCH holding it and moves the cursor by
    one; on [x = 5 $ 2] the lexer returns five tokens, the fourth being
    that of [$], and the script stops only in the parser. *)
Theorem catch_all_emits_token :
  (forall pre a post toks,
     Lexer.catch_all_only a = true ->
     Lexer.step TOKEN_TYPES
       {| Lexer.code := pre ++ a :: post; Lexer.pos := length pre;
          Lexer.tokens := toks |}
     = (Ok tt,
        {| Lexer.code := pre ++ a :: post; Lexer.pos := length pre + 1;
           Lexer.tokens :=
             toks ++ [{| type := "MISMATCH";
                         value := String a EmptyString |}] |}))
  /\ (exists self',
        Lexer.tokenize (Lexer.init (String.list_ascii_of_string "x = 5 $ 2"))
        = Some (Ok [ {| type := "IDENTIFIER"; value := "x" |};
                     {| type := "ASSIGN"; value := "=" |};
                     {| type := "NUMBER"; value := "5" |};
                     {| type := "MISMATCH"; value := "$" |};
                     {| type := "NUMBER"; value := "2" |} ], self'))
  /\ main "x = 5 $ 2"
     = Some (Raise (SyntaxError "Expected identifier, got MISMATCH")).
Proof.
  split; [|split; [eexists|]; vm_compute; reflexivity].
  intros pre a post toks Ha.
  unfold Lexer.step, Lexer.first_match, TOKEN_TYPES, Re.match_.
  cbn [Lexer.code Lexer.pos Lexer.tokens].
  rewrite drop_app_length.
  destruct a as [[] [] [] [] [] [] [] []];
    first [ by vm_compute in Ha | reflexivity ].
Qed.

Lemma catch_all_emits_token_witness :
  Lexer.catch_all_only "$" = true
  /\ Lexer.step TOKEN_TYPES
       {| Lexer.code := String.list_ascii_of_string "x = 5 $ 2";
          Lexer.pos := 6;
          Lexer.tokens := [] |}
     = (Ok tt,
        {| Lexer.code := String.list_ascii_of_string "x = 5 $ 2";
           Lexer.pos := 7;
           Lexer.tokens := [{| type := "MISMATCH"; value := "$" |}] |}).
Proof.
  split; [reflexivity|].
  exact (proj1 catch_all_emits_token
           (String.list_ascii_of_string "x = 5 ") "$"%char
           (String.list_ascii_of_string " 2") [] eq_refl).
Defined.

(** C8, as the code behaves: [tokenize] never fails, so it raises no
    exception that could carry a character or an offset. At every cursor
    inside the source one pattern of [TOKEN_TYPES] matches, the catch-all
    where no other does; the [for] loop over the table therefore always
    leaves by its [break], the [raise] in its [else] is never run, and
    whatever [tokenize] ends in is a token list. At the [$] of
    [x = 5 $ 2], offset 6, the loop stops at the pattern MISMATCH and
    the lexer returns its five tokens. *)
Theorem lexical_error_unreachable :
  (forall code pos,
     pos < length code ->
     exists token_type v e,
       Lexer.first_match TOKEN_TYPES code pos = Some (token_type, v, e))
  /\ (forall self r self',
        Lexer.tokenize self = Some (r, self') -> exists toks, r = Ok toks)
  /\ Lexer.first_match TOKEN_TYPES (String.list_ascii_of_string "x = 5 $ 2") 6
     = Some ("MISMATCH", ["$"%char], 7)
  /\ (exists toks self',
        Lexer.tokenize (Lexer.init (String.list_ascii_of_string "x = 5 $ 2"))
        = Some (Ok toks, self')
        /\ length toks = 5).
Proof.
  split; [|split; [|split]].
  - intros code pos Hp.
    destruct (split_at _ _ Hp) as (pre & a & post & -> & <-).
    apply first_match_total.
  - intros self r self' E.
    destruct (tokenize_loop_total _ self (le_n _)) as (s & E' & _).
    unfold Lexer.tokenize, Lexer.tokenize_with in E.
    rewrite E' in E. injection E as <- _. by eexists.
  - vm_compute. reflexivity.
  - eexists _, _. split; vm_compute; reflexivity.
Qed.

Lemma lexical_error_unreachable_witness :
  exists token_type v e,
    Lexer.first_match TOKEN_TYPES (String.list_ascii_of_string "y = 1 # 2") 6
    = Some (token_type, v, e).
Proof.
  apply (proj1 lexical_error_unreachable). simpl. lia.
Defined.

(** ** The parser *)

Section ParserFacts.

Import Parser.

Local Arguments is_in : simpl never.

Lemma agree_ret {A} (a : A) self (Q : result A -> t -> Prop) :
  Q (Ok a) self -> agree (ret a) (ret a) self Q.
Proof. intros HQ. by exists (Ok a), self. Qed.

Lemma agree_raise {A} e self (Q : result A -> t -> Prop) :
  Q (Raise e) self -> agree (raise e) (raise e) self Q.
Proof. intros HQ. by exists (Raise e), self. Qed.

Lemma agree_lift {A} (r : result A) self (Q : result A -> t -> Prop) :
  Q r self -> agree (lift r) (lift r) self Q.
Proof. intros HQ. by exists r, self. Qed.

Lemma agree_bind {A B} (m m' : M A) (f f' : A -> M B) self
    (Q : result B -> t -> Prop) :
  agree m m' self (fun r s =>
    match r with
    | Ok a => agree (f a) (f' a) s Q
    | Raise e => Q (Raise e) s
    end) ->
  agree (bind m f) (bind m' f') self Q.
Proof.
  intros (r & s & E & E' & H). unfold agree, bind. rewrite E, E'.
  destruct r as [a|e]; [exact H|]. by exists (Raise e), s.
Qed.

Lemma agree_current_token self (Q : result Token -> t -> Prop) :
  Q (Ok (peek self)) self -> agree current_token current_token self Q.
Proof. intros HQ. by exists (Ok (peek self)), self. Qed.

Lemma agree_consume ty self (Q : result unit -> t -> Prop) :
  (type (peek self) = ty -> Q (Ok tt) (advance self)) ->
  (forall e, Q (Raise e) self) ->
  agree (consume ty) (consume ty) self Q.
Proof.
  intros Hok Herr. unfold consume. apply agree_bind, agree_current_token.
  destruct (String.eqb_spec (type (peek self)) ty) as [E|E].
  - eexists _, _. split; [done|]. split; [done|]. auto.
  - by apply agree_raise.
Qed.

Lemma agree_conseq {A} (m m' : M A) self (Q Q' : result A -> t -> Prop) :
  agree m m' self Q -> (forall r s, Q r s -> Q' r s) -> agree m m' self Q'.
Proof. intros (r & s & E & E' & H) HQ. exists r, s. auto. Qed.

Lemma peek_real self :
  type (peek self) <> "EOF" -> pos self < length (tokens self).
Proof.
  unfold peek. destruct (tokens self !! pos self) eqn:E.
  - intros _. by eapply lookup_lt_Some.
  - done.
Qed.

Lemma remaining_advance self :
  pos self < length (tokens self) ->
  remaining (advance self) = remaining self - 1
  /\ 1 <= remaining self.
Proof. unfold remaining, advance. simpl. lia. Qed.

Lemma is_in_real s l :
  is_in s l = true -> is_in "EOF" l = false -> s <> "EOF".
Proof. intros H1 H2 ->. congruence. Qed.


Lemma post_refl self (P : ASTNode -> Prop) r :
  (forall a, r = Ok a -> P a) -> post self P r self.
Proof. by split. Qed.

Lemma post_trans self s1 s2 (P : ASTNode -> Prop) r :
  tokens s1 = tokens self -> pos self <= pos s1 ->
  post s1 P r s2 -> post self P r s2.
Proof. intros Ht Hp (Ht' & Hp' & HP). split; [congruence|]. split; [lia|done]. Qed.

Lemma remaining_le self s :
  tokens s = tokens self -> pos self <= pos s -> remaining s <= remaining self.
Proof. unfold remaining. intros -> ?. lia. Qed.

(** After a successful [consume] of a type other than the end marker. *)
Lemma consumed self ty :
  type (peek self) = ty -> ty <> "EOF" ->
  tokens (advance self) = tokens self
  /\ pos self <= pos (advance self)
  /\ remaining (advance self) + 1 = remaining self.
Proof.
  intros E Hty. assert (pos self < length (tokens self)).
  { apply peek_real. congruence. }
  unfold remaining, advance; simpl. split; [done|]. lia.
Qed.

Lemma expr_agree fuel :
  (forall fuel' self,
     4 * remaining self + 1 <= fuel -> 4 * remaining self + 1 <= fuel' ->
     agree (factor fuel) (factor fuel') self (post self assign_free))
  /\ (forall fuel' node self, assign_free node ->
     4 * remaining self + 1 <= fuel -> 4 * remaining self + 1 <= fuel' ->
     agree (term_loop fuel node) (term_loop fuel' node) self
       (post self assign_free))
  /\ (forall fuel' self,
     4 * remaining self + 2 <= fuel -> 4 * remaining self + 2 <= fuel' ->
     agree (term fuel) (term fuel') self (post self assign_free))
  /\ (forall fuel' node self, assign_free node ->
     4 * remaining self + 3 <= fuel -> 4 * remaining self + 3 <= fuel' ->
     agree (expr_loop fuel node) (expr_loop fuel' node) self
       (post self assign_free))
  /\ (forall fuel' self,
     4 * remaining self + 4 <= fuel -> 4 * remaining self + 4 <= fuel' ->
     agree (expr fuel) (expr fuel') self (post self assign_free)).
Proof.
  induction fuel as [|fuel (IHf & IHtl & IHt & IHel & IHe)].
  { repeat split; intros; lia. }
  repeat split.
  - (* factor *)
    intros [|fuel'] self Hf Hf'; [lia|]. simpl.
    apply agree_bind, agree_current_token.
    destruct (String.eqb_spec (type (peek self)) "NUMBER") as [E|_].
    { apply agree_bind, agree_consume; [intros _|intros; by apply post_refl].
      destruct (consumed self _ E) as (Ht & Hp & _); [done|].
      apply agree_lift. split; [done|]. split; [done|].
      unfold Number_init. intros a. by destruct (Py.int _); intros [= <-]. }
    destruct (String.eqb_spec (type (peek self)) "IDENTIFIER") as [E|_].
    { apply agree_bind, agree_consume; [intros _|intros; by apply post_refl].
      destruct (consumed self _ E) as (Ht & Hp & _); [done|].
      apply agree_ret. split; [done|]. split; [done|]. by intros a [= <-]. }
    destruct (String.eqb_spec (type (peek self)) "LPAREN") as [E|_];
      [|by apply agree_raise, post_refl].
    apply agree_bind, agree_consume; [intros _|intros; by apply post_refl].
    destruct (consumed self _ E) as (Ht & Hp & Hr); [done|].
    apply agree_bind. eapply agree_conseq; [apply IHe; lia|].
    intros r s (Ht' & Hp' & HP). destruct r as [node|e].
    + apply agree_bind, agree_consume; [intros _|intros].
      * apply agree_ret. split; [simpl; congruence|].
        split; [simpl in *; lia|]. intros a [= <-]. by apply HP.
      * split; [congruence|]. split; [lia|done].
    + split; [congruence|]. split; [lia|done].
  - (* term_loop *)
    intros [|fuel'] node self Hn Hf Hf'; [lia|]. simpl.
    apply agree_bind, agree_current_token.
    destruct (is_in (type (peek self)) ["MULTIPLY"; "DIVIDE"]) eqn:E;
      [|apply agree_ret, post_refl; by intros a [= <-]].
    apply is_in_real in E; [|done].
    apply agree_bind, agree_consume; [intros _|intros; by apply post_refl].
    destruct (consumed self _ eq_refl E) as (Ht & Hp & Hr).
    apply agree_bind. eapply agree_conseq; [apply IHf; lia|].
    intros r s (Ht' & Hp' & HP). destruct r as [rhs|e].
    + pose proof (remaining_le _ _ Ht' Hp').
      eapply agree_conseq; [apply IHtl; [|lia..]|].
      * simpl. apply andb_True. split; [done|by apply HP].
      * intros r' s'. apply post_trans; [congruence|lia].
    + split; [congruence|]. split; [lia|done].
  - (* term *)
    intros [|fuel'] self Hf Hf'; [lia|]. simpl.
    apply agree_bind. eapply agree_conseq; [apply IHf; lia|].
    intros r s (Ht' & Hp' & HP). destruct r as [node|e]; [|done].
    pose proof (remaining_le _ _ Ht' Hp').
    eapply agree_conseq; [apply IHtl; [by apply HP|lia..]|].
    intros r' s'. by apply post_trans.
  - (* expr_loop *)
    intros [|fuel'] node self Hn Hf Hf'; [lia|]. simpl.
    apply agree_bind, agree_current_token.
    destruct (is_in (type (peek self)) ["PLUS"; "MINUS"]) eqn:E;
      [|apply agree_ret, post_refl; by intros a [= <-]].
    apply is_in_real in E; [|done].
    apply agree_bind, agree_consume; [intros _|intros; by apply post_refl].
    destruct (consumed self _ eq_refl E) as (Ht & Hp & Hr).
    apply agree_bind. eapply agree_conseq; [apply IHt; lia|].
    intros r s (Ht' & Hp' & HP). destruct r as [rhs|e].
    + pose proof (remaining_le _ _ Ht' Hp').
      eapply agree_conseq; [apply IHel; [|lia..]|].
      * simpl. apply andb_True. split; [done|by apply HP].
      * intros r' s'. apply post_trans; [congruence|lia].
    + split; [congruence|]. split; [lia|done].
  - (* expr *)
    intros [|fuel'] self Hf Hf'; [lia|]. simpl.
    apply agree_bind. eapply agree_conseq; [apply IHt; lia|].
    intros r s (Ht' & Hp' & HP). destruct r as [node|e]; [|done].
    pose proof (remaining_le _ _ Ht' Hp').
    eapply agree_conseq; [apply IHel; [by apply HP|lia..]|].
    intros r' s'. by apply post_trans.
Qed.

Lemma assignment_agree fuel fuel' self :
  4 * remaining self + 4 <= fuel -> 4 * remaining self + 4 <= fuel' ->
  agree (assignment fuel) (assignment fuel') self (fun r s =>
    tokens s = tokens self /\ pos self <= pos s
    /\ forall a, r = Ok a -> statement a /\ pos self < pos s).
Proof.
  intros Hf Hf'. unfold assignment, identifier.
  apply agree_bind, agree_bind, agree_current_token.
  destruct (String.eqb_spec (type (peek self)) "IDENTIFIER") as [E|_];
    [|by apply agree_raise].
  apply agree_bind, agree_consume; [intros _|done].
  destruct (consumed self _ E) as (Ht & Hp & Hr); [done|].
  apply agree_ret, agree_bind, agree_consume; [intros _|done].
  set (s1 := advance self) in *.
  assert (remaining (advance s1) <= remaining s1)
    by (unfold remaining, advance; simpl; lia).
  apply agree_bind. eapply agree_conseq; [apply (proj2 (expr_agree _)); lia|].
  intros r s (Ht' & Hp' & HP). simpl in Ht', Hp'.
  assert (pos s1 = pos self + 1) as Hs1 by done.
  destruct r as [node|e].
  - apply agree_ret. split; [congruence|]. split; [lia|].
    intros a [= <-]. split; [by apply HP|lia].
  - split; [congruence|]. split; [lia|done].
Qed.

Lemma parse_loop_agree fuel : forall fuel' statements self,
  4 * remaining self + 6 <= fuel -> 4 * remaining self + 6 <= fuel' ->
  agree (parse_loop fuel statements) (parse_loop fuel' statements) self
    (fun r s =>
       tokens s = tokens self
       /\ forall l, r = Ok l ->
            exists new, l = statements ++ new /\ Forall statement new).
Proof.
  induction fuel as [|fuel IH]; intros [|fuel'] statements self Hf Hf';
    try lia.
  simpl. apply agree_bind, agree_current_token.
  destruct (String.eqb_spec (type (peek self)) "EOF") as [_|E]; simpl.
  { apply agree_ret. split; [done|]. intros l [= <-]. exists [].
    by rewrite app_nil_r. }
  destruct (String.eqb_spec (type (peek self)) "NEWLINE") as [N|_].
  - apply agree_bind, agree_consume; [intros _|done].
    destruct (consumed self _ N) as (Ht & Hp & Hr); [done|].
    eapply agree_conseq; [apply IH; lia|].
    intros r s (Ht' & HP). split; [congruence|done].
  - apply agree_bind. eapply agree_conseq; [apply assignment_agree; lia|].
    intros r s (Ht & Hp & HP). destruct r as [node|e]; [|done].
    destruct (HP _ eq_refl) as [Hs Hlt].
    assert (remaining s < remaining self).
    { apply peek_real in E. unfold remaining. rewrite Ht. lia. }
    eapply agree_conseq; [apply IH; lia|].
    intros r' s' (Ht' & HP'). split; [congruence|].
    intros l Hl. destruct (HP' _ Hl) as (new & -> & Hnew).
    exists (node :: new). split; [by rewrite <- app_assoc|].
    by constructor.
Qed.

(** Any fuel from [fuel_for] on gives the loop of [parse] the same end. *)
Lemma parse_loop_fuel fuel statements self :
  fuel_for (remaining self) <= fuel ->
  parse_loop fuel statements self = parse_from statements self.
Proof.
  intros Hf. unfold parse_from.
  destruct (parse_loop_agree fuel (fuel_for (remaining self)) statements self)
    as (r & s & -> & -> & _); unfold fuel_for in *; lia || done.
Qed.

(** [parse] always ends, in a list of assignments or in an exception. *)
Lemma parse_from_total statements self :
  exists r self',
    parse_from statements self = Some (r, self')
    /\ tokens self' = tokens self
    /\ forall l, r = Ok l ->
         exists new, l = statements ++ new /\ Forall statement new.
Proof.
  unfold parse_from.
  destruct (parse_loop_agree (fuel_for (remaining self))
              (fuel_for (remaining self)) statements self)
    as (r & s & E & _ & H); [unfold fuel_for; lia..|].
  by exists r, s.
Qed.

Lemma parse_loop_newline fuel statements self :
  type (peek self) = "NEWLINE" ->
  parse_loop (S fuel) statements self
  = parse_loop fuel statements (advance self).
Proof.
  intros N. simpl. unfold bind, current_token, consume, bind, current_token.
  cbv beta. rewrite N. simpl. by rewrite N.
Qed.

Lemma parse_from_newline statements self :
  type (peek self) = "NEWLINE" ->
  parse_from statements self = parse_from statements (advance self).
Proof.
  intros N. destruct (consumed self _ N) as (Ht & Hp & Hr); [done|].
  unfold parse_from at 1. unfold fuel_for.
  replace (4 * remaining self + 6) with (S (4 * remaining self + 5)) by lia.
  rewrite parse_loop_newline by done.
  apply parse_loop_fuel. unfold fuel_for. lia.
Qed.


Lemma peek_app front tok back :
  peek {| tokens := front ++ tok :: back; pos := length front |} = tok.
Proof.
  unfold peek. simpl.
  by rewrite lookup_app_r, Nat.sub_diag by lia.
Qed.

Lemma parse_from_newlines texts : forall statements front back,
  parse_from statements
    {| tokens := front ++ newlines texts ++ back; pos := length front |}
  = parse_from statements
      {| tokens := front ++ newlines texts ++ back;
         pos := length front + length texts |}.
Proof.
  induction texts as [|v texts IH]; intros statements front back; simpl.
  - by rewrite Nat.add_0_r.
  - rewrite parse_from_newline by (by rewrite peek_app).
    unfold advance; simpl.
    specialize (IH statements (front ++ [{| type := "NEWLINE"; value := v |}])
                  back).
    rewrite <- !app_assoc, length_app in IH. simpl in IH.
    rewrite IH. do 2 f_equal. lia.
Qed.

Lemma peek_shift front rest n :
  peek {| tokens := front ++ rest; pos := length front + n |}
  = peek {| tokens := rest; pos := n |}.
Proof.
  unfold peek. simpl. rewrite lookup_app_r by lia.
  by replace (length front + n - length front) with n by lia.
Qed.

Lemma length_newlines texts : length (newlines texts) = length texts.
Proof. apply length_map. Qed.

(** The loop of [parse] at a token that starts no assignment. *)
Lemma parse_from_not_identifier fuel statements self :
  type (peek self) <> "EOF" -> type (peek self) <> "NEWLINE" ->
  type (peek self) <> "IDENTIFIER" ->
  parse_loop (S fuel) statements self
  = Some (Raise (SyntaxError
                   ("Expected identifier, got " +:+ type (peek self))), self).
Proof.
  intros E N I. apply String.eqb_neq in E, N, I. simpl.
  unfold bind at 1. unfold current_token at 1. rewrite E, N. simpl.
  unfold assignment, identifier, bind, current_token. by rewrite I.
Qed.

(** The loop of [parse] at a name that no [=] follows. *)
Lemma parse_from_not_assign fuel statements self :
  type (peek self) = "IDENTIFIER" ->
  type (peek (advance self)) <> "ASSIGN" ->
  parse_loop (S fuel) statements self
  = Some (Raise (SyntaxError
                   ("Expected ASSIGN, got " +:+ type (peek (advance self)))),
          advance self).
Proof.
  intros I A. apply String.eqb_neq in A. simpl.
  unfold bind at 1. unfold current_token at 1. rewrite I. simpl.
  unfold assignment, identifier, consume, bind, current_token, ret, raise.
  rewrite I. simpl. rewrite I. simpl. by rewrite A.
Qed.

End ParserFacts.

(** C5: a statement that does not start with a name, or whose name is not
    followed by [=], is refused by [parse] with a [SyntaxError] that tells
    what was expected and the type of the token found. Blank lines before
    the statement change nothing. [1x = 5] passes the lexer and is refused
    by the parser, which finds a number where the target should be. *)
Theorem parse_rejects_non_assignment :
  (forall texts tok rest,
     type tok <> "NEWLINE" -> type tok <> "EOF" ->
     type tok <> "IDENTIFIER" ->
     Parser.parse (Parser.init (newlines texts ++ tok :: rest))
     = Some (Raise (SyntaxError ("Expected identifier, got " +:+ type tok)),
             {| Parser.tokens := newlines texts ++ tok :: rest;
                Parser.pos := length texts |}))
  /\ (forall texts tok rest,
        type tok = "IDENTIFIER" ->
        type (Parser.peek (Parser.init rest)) <> "ASSIGN" ->
        Parser.parse (Parser.init (newlines texts ++ tok :: rest))
        = Some (Raise (SyntaxError
                         ("Expected ASSIGN, got "
                          +:+ type (Parser.peek (Parser.init rest)))),
                {| Parser.tokens := newlines texts ++ tok :: rest;
                   Parser.pos := length texts + 1 |}))
  /\ (exists self',
        Lexer.tokenize (Lexer.init (String.list_ascii_of_string "1x = 5"))
        = Some (Ok [ {| type := "NUMBER"; value := "1" |};
                     {| type := "IDENTIFIER"; value := "x" |};
                     {| type := "ASSIGN"; value := "=" |};
                     {| type := "NUMBER"; value := "5" |} ], self'))
  /\ main "1x = 5"
     = Some (Raise (SyntaxError "Expected identifier, got NUMBER")).
Proof.
  split; [|split; [|split; [eexists|]; vm_compute; reflexivity]].
  - intros texts tok rest N E I.
    unfold Parser.parse, Parser.init.
    etrans; [exact (parse_from_newlines texts [] [] (tok :: rest))|].
    cbn [app length Nat.add].
    set (self := {| Parser.tokens := _ |}).
    assert (Parser.peek self = tok) as Hp.
    { subst self. rewrite <- (length_newlines texts). apply peek_app. }
    unfold Parser.parse_from, Parser.fuel_for.
    replace (4 * Parser.remaining self + 6)
      with (S (4 * Parser.remaining self + 5)) by lia.
    rewrite parse_from_not_identifier by (by rewrite Hp). by rewrite Hp.
  - intros texts tok rest I A.
    unfold Parser.parse, Parser.init.
    etrans; [exact (parse_from_newlines texts [] [] (tok :: rest))|].
    cbn [app length Nat.add].
    set (self := {| Parser.tokens := _ |}).
    assert (Parser.peek self = tok) as Hp.
    { subst self. rewrite <- (length_newlines texts). apply peek_app. }
    assert (Parser.peek (Parser.advance self)
            = Parser.peek (Parser.init rest)) as Hn.
    { subst self. unfold Parser.advance. simpl.
      replace (length texts + 1) with (length (newlines texts ++ [tok]) + 0)
        by (rewrite length_app, length_newlines; simpl; lia).
      rewrite (cons_middle tok), app_assoc. apply peek_shift. }
    unfold Parser.parse_from, Parser.fuel_for.
    replace (4 * Parser.remaining self + 6)
      with (S (4 * Parser.remaining self + 5)) by lia.
    rewrite parse_from_not_assign by (by rewrite ?Hp, ?Hn). by rewrite Hn.
Qed.

Lemma parse_rejects_non_assignment_witness :
  Parser.parse
    (Parser.init (newlines ["a"] ++ {| type := "LPAREN"; value := "(" |}
                  :: [{| type := "NUMBER"; value := "1" |}]))
  = Some (Raise (SyntaxError ("Expected identifier, got " +:+ "LPAREN")),
          {| Parser.tokens :=
               newlines ["a"] ++ {| type := "LPAREN"; value := "(" |}
               :: [{| type := "NUMBER"; value := "1" |}];
             Parser.pos := 1 |}).
Proof.
  apply (proj1 parse_rejects_non_assignment ["a"]
           {| type := "LPAREN"; value := "(" |}
           [{| type := "NUMBER"; value := "1" |}]); simpl; discriminate.
Defined.

(** C7: the loop of [parse], standing before a run of NEWLINE tokens,
    goes on behind the run with the statements it had: no node is made
    for a NEWLINE. The text with two blank lines between [x = 1] and
    [y = 2] parses to these two assignments. *)
Theorem parse_skips_newlines :
  (forall statements front texts back,
     Parser.parse_from statements
       {| Parser.tokens := front ++ newlines texts ++ back;
          Parser.pos := length front |}
     = Parser.parse_from statements
         {| Parser.tokens := front ++ newlines texts ++ back;
            Parser.pos := length front + length texts |})
  /\ (exists tokens self' self'',
        Lexer.tokenize
          (Lexer.init (String.list_ascii_of_string
             ("x = 1" +:+ String "010" (String "010" (String "010" "y = 2")))))
        = Some (Ok tokens, self')
        /\ Parser.parse (Parser.init tokens)
           = Some (Ok [ Assign (Identifier "x") (Number 1);
                        Assign (Identifier "y") (Number 2) ], self'')).
Proof.
  split.
  - intros. apply parse_from_newlines.
  - eexists _, _, _. split; [vm_compute; reflexivity|].
    vm_compute. reflexivity.
Qed.

(** ** Runs of the parser on given tokens *)

Section ParserRuns.

Import Parser.

Local Arguments is_in : simpl never.
Local Arguments advance : simpl never.
Local Arguments peek : simpl never.

Lemma factor_number fuel self node :
  type (peek self) = "NUMBER" ->
  Number_init (value (peek self)) = Ok node ->
  factor (S fuel) self = Some (Ok node, advance self).
Proof.
  intros T N. simpl. unfold bind, current_token, consume, bind, current_token,
    lift. rewrite T. simpl. rewrite T. simpl. by rewrite N.
Qed.

Lemma term_loop_done fuel node self :
  is_in (type (peek self)) ["MULTIPLY"; "DIVIDE"] = false ->
  term_loop (S fuel) node self = Some (Ok node, self).
Proof. intros T. simpl. unfold bind, current_token. by rewrite T. Qed.

Lemma term_loop_more fuel node self rhs self' R :
  is_in (type (peek self)) ["MULTIPLY"; "DIVIDE"] = true ->
  factor fuel (advance self) = Some (Ok rhs, self') ->
  term_loop fuel (BinOp node (value (peek self)) rhs) self' = R ->
  term_loop (S fuel) node self = R.
Proof.
  intros T F <-. simpl. unfold bind at 1. unfold current_token at 1.
  rewrite T. unfold bind at 1. unfold consume, bind, current_token.
  rewrite String.eqb_refl. by rewrite F.
Qed.

Lemma term_run fuel self node self' R :
  factor fuel self = Some (Ok node, self') ->
  term_loop fuel node self' = R ->
  term (S fuel) self = R.
Proof. intros F <-. simpl. unfold bind. by rewrite F. Qed.

Lemma expr_loop_done fuel node self :
  is_in (type (peek self)) ["PLUS"; "MINUS"] = false ->
  expr_loop (S fuel) node self = Some (Ok node, self).
Proof. intros T. simpl. unfold bind, current_token. by rewrite T. Qed.

Lemma expr_loop_more fuel node self rhs self' R :
  is_in (type (peek self)) ["PLUS"; "MINUS"] = true ->
  term fuel (advance self) = Some (Ok rhs, self') ->
  expr_loop fuel (BinOp node (value (peek self)) rhs) self' = R ->
  expr_loop (S fuel) node self = R.
Proof.
  intros T F <-. simpl. unfold bind at 1. unfold current_token at 1.
  rewrite T. unfold bind at 1. unfold consume, bind, current_token.
  rewrite String.eqb_refl. by rewrite F.
Qed.

Lemma expr_run fuel self node self' R :
  term fuel self = Some (Ok node, self') ->
  expr_loop fuel node self' = R ->
  expr (S fuel) self = R.
Proof. intros F <-. simpl. unfold bind. by rewrite F. Qed.

Lemma assignment_run fuel self node self' :
  type (peek self) = "IDENTIFIER" ->
  type (peek (advance self)) = "ASSIGN" ->
  expr fuel (advance (advance self)) = Some (Ok node, self') ->
  assignment fuel self
  = Some (Ok (Assign (Identifier (value (peek self))) node), self').
Proof.
  intros I A E.
  unfold assignment, identifier, consume, bind, current_token, ret.
  rewrite I. simpl. rewrite I. simpl. rewrite A. simpl. by rewrite E.
Qed.

Lemma parse_loop_done fuel statements self :
  type (peek self) = "EOF" ->
  parse_loop (S fuel) statements self = Some (Ok statements, self).
Proof. intros T. simpl. unfold bind, current_token. by rewrite T. Qed.

Lemma parse_loop_statement fuel statements self node self' R :
  String.eqb (type (peek self)) "EOF" = false ->
  String.eqb (type (peek self)) "NEWLINE" = false ->
  assignment fuel self = Some (Ok node, self') ->
  parse_loop fuel (statements ++ [node]) self' = R ->
  parse_loop (S fuel) statements self = R.
Proof.
  intros E N A <-. simpl. unfold bind at 1. unfold current_token at 1.
  rewrite E, N. simpl. unfold bind. by rewrite A.
Qed.

End ParserRuns.

Ltac parser_step :=
  lazymatch goal with
  | |- Parser.parse_loop _ _ _ = _ =>
      first [ eapply parse_loop_done; reflexivity
            | eapply parse_loop_statement; [reflexivity|reflexivity| |] ]
  | |- Parser.assignment _ _ = _ =>
      eapply assignment_run; [reflexivity|reflexivity|]
  | |- Parser.expr _ _ = _ => eapply expr_run
  | |- Parser.expr_loop _ _ _ = _ =>
      first [ eapply expr_loop_done; reflexivity
            | eapply expr_loop_more; [reflexivity| |] ]
  | |- Parser.term _ _ = _ => eapply term_run
  | |- Parser.term_loop _ _ _ = _ =>
      first [ eapply term_loop_done; reflexivity
            | eapply term_loop_more; [reflexivity| |] ]
  | |- Parser.factor _ _ = _ =>
      eapply factor_number; [reflexivity|eassumption]
  end.

(** C3: [*] and [/] bind tighter than [+] and [-]. A product to the right
    of a sum is parsed as the right operand of the sum, a product to the
    left as its left operand, whatever the numbers; so [a + b * c]
    evaluates to [a + (b * c)], and [x = 2 + 3 * 4] binds [x] to 14. *)
Theorem multiplication_binds_tighter :
  (forall (plus times : bool) x a b c o1 o2 na nb nc,
     Py.int a = Some na -> Py.int b = Some nb -> Py.int c = Some nc ->
     let additive :=
       {| type := if plus then "PLUS" else "MINUS"; value := o1 |} in
     let multiplicative :=
       {| type := if times then "MULTIPLY" else "DIVIDE"; value := o2 |} in
     let target := {| type := "IDENTIFIER"; value := x |} in
     let assign := {| type := "ASSIGN"; value := "=" |} in
     let number v := {| type := "NUMBER"; value := v |} in
     (exists self',
        Parser.parse
          (Parser.init [target; assign; number a; additive; number b;
                        multiplicative; number c])
        = Some (Ok [Assign (Identifier x)
                      (BinOp (Number na) o1
                         (BinOp (Number nb) o2 (Number nc)))], self'))
     /\ (exists self',
           Parser.parse
             (Parser.init [target; assign; number a; multiplicative; number b;
                           additive; number c])
           = Some (Ok [Assign (Identifier x)
                         (BinOp (BinOp (Number na) o2 (Number nb)) o1
                            (Number nc))], self')))
  /\ (forall na nb nc self,
        Interpreter.evaluate
          (BinOp (Number na) "+" (BinOp (Number nb) "*" (Number nc))) self
        = (Ok (VInt (na + nb * nc)), self))
  /\ (exists out,
        main "x = 2 + 3 * 4" = Some (Ok out)
        /\ out_ast out
           = [Assign (Identifier "x")
                (BinOp (Number 2) "+" (BinOp (Number 3) "*" (Number 4)))]
        /\ out_results out = [VInt 14]
        /\ out_variables out = {[ "x" := VInt 14 ]}
        /\ out_variables out !! "x" <> Some (VInt 20)).
Proof.
  split; [|split].
  - intros plus times x a b c o1 o2 na nb nc Ha Hb Hc. cbv zeta.
    assert (Number_init a = Ok (Number na)) as Ha'
      by (unfold Number_init; by rewrite Ha).
    assert (Number_init b = Ok (Number nb)) as Hb'
      by (unfold Number_init; by rewrite Hb).
    assert (Number_init c = Ok (Number nc)) as Hc'
      by (unfold Number_init; by rewrite Hc).
    unfold Parser.parse, Parser.parse_from.
    destruct plus, times; split; eexists;
      change (Parser.fuel_for _) with 34; repeat parser_step.
  - reflexivity.
  - eexists. split; [vm_compute; reflexivity|]. repeat split.
    vm_compute. discriminate.
Qed.

Lemma multiplication_binds_tighter_witness :
  exists self',
    Parser.parse
      (Parser.init [ {| type := "IDENTIFIER"; value := "x" |};
                     {| type := "ASSIGN"; value := "=" |};
                     {| type := "NUMBER"; value := "2" |};
                     {| type := "MINUS"; value := "-" |};
                     {| type := "NUMBER"; value := "3" |};
                     {| type := "DIVIDE"; value := "/" |};
                     {| type := "NUMBER"; value := "4" |} ])
    = Some (Ok [Assign (Identifier "x")
                  (BinOp (Number 2) "-"
                     (BinOp (Number 3) "/" (Number 4)))], self').
Proof.
  exact (proj1 (proj1 multiplication_binds_tighter false false
                  "x" "2" "3" "4" "-" "/" 2%Z 3%Z 4%Z
                  eq_refl eq_refl eq_refl)).
Defined.

(** ** The interpreter *)

Section InterpreterFacts.

Import Interpreter.

Lemma find_app {A} (f : A -> bool) (l1 l2 : list A) :
  find f (l1 ++ l2) =
  match find f l1 with Some x => Some x | None => find f l2 end.
Proof. induction l1 as [|a l1 IH]; simpl; [done|]. by destruct (f a). Qed.


Lemma as_float_raise v e : as_float v = Raise e -> arithmetic e.
Proof.
  destruct v as [n|f|]; simpl; [|done|by intros [= <-]].
  unfold float_of_int, finite.
  destruct (binary_normalize _ _ _ _ _); try done. by intros [= <-].
Qed.

Lemma floats_raise l r k e :
  (forall x y e, k x y = Raise e -> arithmetic e) ->
  floats l r k = Raise e -> arithmetic e.
Proof.
  intros Hk. unfold floats.
  destruct (as_float l) as [x|e1] eqn:El;
    [|intros [= <-]; by eapply as_float_raise].
  destruct (as_float r) as [y|e2] eqn:Er;
    [apply Hk|intros [= <-]; by eapply as_float_raise].
Qed.

Lemma arith_raise int_op float_op l r e :
  arith int_op float_op l r = Raise e -> arithmetic e.
Proof.
  unfold arith.
  destruct l as [a|x|], r as [b|y|]; try (intros [= <-]; done);
    apply floats_raise; intros; done.
Qed.

Lemma truediv_raise l r e : truediv l r = Raise e -> arithmetic e.
Proof.
  unfold truediv, int_truediv, finite.
  destruct l as [a|x|], r as [b|y|]; try (intros [= <-]; done);
    try (apply floats_raise; intros ? ? ?;
         destruct (PrimFloat.eqb _ _); intros [= <-]; done).
  destruct (b =? 0)%Z; [by intros [= <-]|].
  destruct (SFdiv _ _ _ _); by intros [= <-].
Qed.

Lemma truediv_float l r v : truediv l r = Ok v -> exists f, v = VFloat f.
Proof.
  unfold truediv, int_truediv, floats, finite.
  destruct l as [a|x|], r as [b|y|]; try done;
    repeat match goal with
    | |- context [match ?x with _ => _ end] => destruct x eqn:?
    | |- context [if ?x then _ else _] => destruct x eqn:?
    end; try done; intros [= <-]; eauto.
Qed.

(** Evaluating a tree without assignments leaves the variables alone; it
    succeeds only when every name it reads has a value, and otherwise
    raises for the first name without one, unless an operator raised
    before. *)
Lemma evaluate_assign_free node self :
  assign_free node ->
  match evaluate node self with
  | (Ok _, self') => self' = self /\ first_absent self node = None
  | (Raise e, self') =>
      self' = self
      /\ (arithmetic e
          \/ exists name, first_absent self node = Some name
                          /\ e = NameError
                                   ("Variable " +:+ name +:+ " not defined"))
  end.
Proof.
  unfold first_absent.
  induction node as [n|name|l IHl op r IHr|i _ e _]; simpl; [done| | |done].
  - intros _. unfold absent.
    destruct (variables self !! name) eqn:E; [done|].
    split; [done|]. right. by exists name.
  - intros [Hl Hr]%andb_True. specialize (IHl Hl). specialize (IHr Hr).
    rewrite find_app.
    destruct (evaluate l self) as [[vl|el] s1].
    + destruct IHl as [-> ->].
      destruct (evaluate r self) as [[vr|er] s2]; [|done].
      destruct IHr as [-> ->].
      repeat match goal with
      | |- context [if ?c then _ else _] => destruct c
      end;
      match goal with
      | |- context [arith ?f ?g vl vr] =>
          destruct (arith f g vl vr) eqn:E;
          [done|split; [done|]; left; by eapply arith_raise]
      | |- context [truediv vl vr] =>
          destruct (truediv vl vr) eqn:E;
          [done|split; [done|]; left; by eapply truediv_raise]
      | _ => done
      end.
    + destruct IHl as [-> [?|(name & -> & ->)]]; [by auto|].
      split; [done|]. right. by exists name.
Qed.

Lemma height_pos node : 1 <= height node.
Proof. destruct node; simpl; lia. Qed.

(** With frames for its nesting, a tree evaluates under the limit as it
    does without one. *)
Lemma evaluate_within_enough frames : forall node self,
  height node <= frames ->
  evaluate_within frames node self = evaluate node self.
Proof.
  induction frames as [|frames IH]; intros node self Hh.
  { pose proof (height_pos node). lia. }
  destruct node as [n|name|l op r|i e]; simpl in *; [done|done| |].
  - rewrite (IH l) by lia.
    destruct (evaluate l self) as [[vl|el] s1]; [|done].
    by rewrite (IH r) by lia.
  - by rewrite (IH e) by lia.
Qed.






End InterpreterFacts.




(** ** True division of integers *)

Section TrueDivision.

Local Open Scope Z_scope.

(** Powers of two as unknowns, for linear arithmetic. *)
Ltac pow_atoms :=
  repeat match goal with
  | |- context [Z.pow ?a ?b] =>
      let x := fresh "p" in set (x := Z.pow a b) in *; clearbody x
  | H : context [Z.pow ?a ?b] |- _ =>
      let x := fresh "p" in set (x := Z.pow a b) in *; clearbody x
  end.

Lemma digits2_pos_bounds m :
  2 ^ (Zpos (digits2_pos m) - 1) <= Zpos m < 2 ^ Zpos (digits2_pos m).
Proof.
  induction m as [m IH|m IH|]; simpl digits2_pos.
  - rewrite Pos2Z.inj_succ. change (Zpos m~1) with (2 * Zpos m + 1).
    replace (Z.succ (Zpos (digits2_pos m)) - 1)
      with (Z.succ (Zpos (digits2_pos m) - 1)) by lia.
    rewrite !Z.pow_succ_r by lia. pow_atoms. lia.
  - rewrite Pos2Z.inj_succ. change (Zpos m~0) with (2 * Zpos m).
    replace (Z.succ (Zpos (digits2_pos m)) - 1)
      with (Z.succ (Zpos (digits2_pos m) - 1)) by lia.
    rewrite !Z.pow_succ_r by lia. pow_atoms. lia.
  - simpl. lia.
Qed.

Lemma digits2_pos_unique m d :
  2 ^ (d - 1) <= Zpos m < 2 ^ d -> Zpos (digits2_pos m) = d.
Proof.
  intros [H1 H2]. pose proof (digits2_pos_bounds m) as [B1 B2].
  assert (0 < d).
  { destruct (Z.lt_ge_cases 0 d) as [|Hd]; [done|].
    destruct (Z.eq_dec d 0) as [->|]; [simpl in H2; lia|].
    rewrite Z.pow_neg_r in H2 by lia. lia. }
  assert (d - 1 < Zpos (digits2_pos m)).
  { apply (Z.pow_lt_mono_r_iff 2); [lia|lia|]. pow_atoms. lia. }
  assert (Zpos (digits2_pos m) - 1 < d).
  { apply (Z.pow_lt_mono_r_iff 2); [lia|lia|]. pow_atoms. lia. }
  lia.
Qed.

Lemma digits2_pos_scale m n k :
  0 <= k -> Zpos n = Zpos m * 2 ^ k ->
  Zpos (digits2_pos n) = Zpos (digits2_pos m) + k.
Proof.
  intros Hk Hn. apply digits2_pos_unique.
  pose proof (digits2_pos_bounds m) as [B1 B2].
  replace (Zpos (digits2_pos m) + k - 1)
    with (Zpos (digits2_pos m) - 1 + k) by lia.
  rewrite !Z.pow_add_r by lia. rewrite Hn.
  assert (0 < 2 ^ k) by (apply Z.pow_pos_nonneg; lia).
  split; [apply Z.mul_le_mono_nonneg_r|apply Z.mul_lt_mono_pos_r]; lia.
Qed.

Lemma iter_xO_value m d : Zpos (Pos.iter xO m d) = Zpos m * 2 ^ Zpos d.
Proof.
  induction d as [|d IH] using Pos.peano_ind.
  - simpl. lia.
  - rewrite Pos.iter_succ.
    change (Zpos (Pos.iter xO m d)~0) with (2 * Zpos (Pos.iter xO m d)).
    rewrite IH, Pos2Z.inj_succ, Z.pow_succ_r by lia.
    pow_atoms. lia.
Qed.

Lemma fexp_small e :
  -1000 <= e -> fexp prec emax e = e - 53.
Proof. unfold fexp, emin, prec, emax. lia. Qed.

(** The float nearest to an integer below 2^53: the integer itself, its
    mantissa shifted to 53 bits. *)
Lemma binary_round_small s m :
  Zpos m < 2 ^ 53 ->
  exists n k,
    0 <= k <= 52 /\ Zpos n = Zpos m * 2 ^ k
    /\ Zpos (digits2_pos n) = 53
    /\ binary_round prec emax s m 0 = S754_finite s n (- k).
Proof.
  intros Hm. pose proof (digits2_pos_bounds m) as [B1 B2].
  assert (Zpos (digits2_pos m) <= 53) as Hd.
  { assert (Zpos (digits2_pos m) - 1 < 53); [|lia].
    apply (Z.pow_lt_mono_r_iff 2); [lia|lia|]. pow_atoms. lia. }
  assert (exists n k, 0 <= k <= 52 /\ Zpos n = Zpos m * 2 ^ k
             /\ k = 53 - Zpos (digits2_pos m)
             /\ shl_align m 0 (fexp prec emax (Zpos (digits2_pos m) + 0))
                = (n, - k)) as (n & k & Hk & Hn & Hkd & Hs).
  { rewrite fexp_small by lia. unfold shl_align.
    destruct (Zpos (digits2_pos m) + 0 - 53 - 0) as [|p|p] eqn:E; [|lia|].
    - exists m, 0. split; [lia|]. split; [simpl; lia|]. split; [lia|done].
    - exists (Pos.iter xO m p), (Zpos p). split; [lia|].
      split; [apply iter_xO_value|]. split; [lia|]. f_equal. lia. }
  exists n, k. split; [done|]. split; [done|].
  assert (Zpos (digits2_pos n) = 53) as Hdn
    by (rewrite (digits2_pos_scale m n k); lia).
  split; [done|].
  unfold binary_round. rewrite Hs. unfold binary_round_aux, shr_fexp.
  simpl Zdigits2. rewrite Hdn, fexp_small by lia.
  replace (53 + - k - 53 - - k) with 0 by lia. simpl.
  rewrite Hdn, fexp_small by lia.
  replace (53 + - k - 53 - - k) with 0 by lia. simpl.
  assert ((- k <=? emax - prec) = true) as ->; [|done].
  apply Z.leb_le. unfold emax, prec. lia.
Qed.

Lemma div_eucl_pair a b : Z.div_eucl a b = (a / b, a mod b).
Proof. unfold Z.div, Z.modulo. by destruct (Z.div_eucl a b). Qed.

Lemma new_location_scale m r k :
  0 <= k -> 0 < m -> 0 <= r ->
  new_location (m * 2 ^ k) (r * 2 ^ k) = new_location m r.
Proof.
  intros Hk Hm Hr.
  destruct (Z.eq_dec k 0) as [->|Hk0]; [by rewrite !Z.mul_1_r|].
  assert (0 < 2 ^ k) as Hc by (apply Z.pow_pos_nonneg; lia).
  assert (Z.even (m * 2 ^ k) = true) as He.
  { rewrite Z.even_mul, (Z.even_pow 2 k) by lia. apply orb_true_r. }
  unfold new_location. rewrite He.
  assert ((r * 2 ^ k =? 0) = (r =? 0)) as E.
  { destruct (Z.eqb_spec r 0) as [->|Hr0]; [done|].
    apply Z.eqb_neq. intros E. apply Z.mul_eq_0 in E. lia. }
  destruct (Z.even m) eqn:Em;
    unfold new_location_even, new_location_odd; rewrite E;
    destruct (r =? 0) eqn:E0; try done;
    apply (f_equal loc_Inexact);
    rewrite Z.mul_assoc, <- Zmult_compare_compat_r by lia; [done|].
  assert (Z.odd m = true) as Ho by (rewrite <- Z.negb_even, Em; done).
  apply Z.odd_spec in Ho as [h Hh].
  destruct (Z.compare_spec (2 * r) m), (Z.compare_spec (2 * r + 1) m);
    try done; lia.
Qed.

Lemma SFdiv_core_scale m1 m2 n1 n2 k1 k2 :
  0 <= k1 <= 52 -> 0 <= k2 <= 52 ->
  Zpos n1 = Zpos m1 * 2 ^ k1 -> Zpos n2 = Zpos m2 * 2 ^ k2 ->
  Zpos (digits2_pos n1) = 53 -> Zpos (digits2_pos n2) = 53 ->
  SFdiv_core_binary prec emax (Zpos n1) (- k1) (Zpos n2) (- k2)
  = SFdiv_core_binary prec emax (Zpos m1) 0 (Zpos m2) 0.
Proof.
  intros Hk1 Hk2 Hn1 Hn2 Hd1 Hd2.
  assert (Zpos (digits2_pos m1) = 53 - k1) as Dm1
    by (pose proof (digits2_pos_scale m1 n1 k1); lia).
  assert (Zpos (digits2_pos m2) = 53 - k2) as Dm2
    by (pose proof (digits2_pos_scale m2 n2 k2); lia).
  unfold SFdiv_core_binary. simpl Zdigits2.
  rewrite Hd1, Hd2, Dm1, Dm2, !fexp_small by lia.
  replace (Z.min (53 + - k1 - (53 + - k2) - 53) (- k1 - - k2))
    with (k2 - k1 - 53) by lia.
  replace (Z.min (53 - k1 + 0 - (53 - k2 + 0) - 53) (0 - 0))
    with (k2 - k1 - 53) by lia.
  replace (- k1 - - k2 - (k2 - k1 - 53)) with 53 by lia.
  replace (0 - 0 - (k2 - k1 - 53)) with (53 + k1 - k2) by lia.
  destruct (53 + k1 - k2) as [|p|p] eqn:Es; [lia| |lia].
  rewrite <- Es. cbv iota.
  rewrite !Z.shiftl_mul_pow2 by lia. rewrite !div_eucl_pair.
  assert (0 < 2 ^ k2) as Hc by (apply Z.pow_pos_nonneg; lia).
  assert (Zpos n1 * 2 ^ 53 = Zpos m1 * 2 ^ (53 + k1 - k2) * 2 ^ k2) as ->.
  { rewrite Hn1, <- !Z.mul_assoc, <- !Z.pow_add_r by lia.
    f_equal. f_equal. lia. }
  rewrite Hn2.
  rewrite Z.div_mul_cancel_r, Z.mul_mod_distr_r by lia.
  rewrite new_location_scale; [done|lia|lia|].
  apply Z.mod_pos_bound. lia.
Qed.

Lemma Zdigits2_bound m d :
  0 <= m < 2 ^ d -> 0 <= d -> Zdigits2 m <= d.
Proof.
  intros [H0 Hm] Hd. destruct m as [|p|p]; [done| |lia]. simpl.
  pose proof (digits2_pos_bounds p) as [B _].
  assert (Zpos (digits2_pos p) - 1 < d); [|lia].
  apply (Z.pow_lt_mono_r_iff 2); [lia|lia|]. pow_atoms. lia.
Qed.

Lemma shr_1_bound mrs :
  0 <= shr_m mrs -> 0 <= shr_m (shr_1 mrs) <= shr_m mrs.
Proof.
  destruct mrs as [m r s]. simpl.
  destruct m as [|[p|p|]|[p|p|]]; simpl; lia.
Qed.

Lemma iter_shr_1_bound p : forall mrs,
  0 <= shr_m mrs -> 0 <= shr_m (SpecFloat.iter_pos shr_1 p mrs) <= shr_m mrs.
Proof.
  induction p as [p IH|p IH|]; intros mrs H; simpl.
  - pose proof (shr_1_bound mrs H).
    pose proof (IH (shr_1 mrs)).
    pose proof (IH (SpecFloat.iter_pos shr_1 p (shr_1 mrs))).
    lia.
  - pose proof (IH mrs H). pose proof (IH (SpecFloat.iter_pos shr_1 p mrs)). lia.
  - by apply shr_1_bound.
Qed.

Lemma shr_fexp_bound m e l d :
  0 <= m < 2 ^ d -> 0 <= d ->
  0 <= shr_m (fst (shr_fexp prec emax m e l)) <= m
  /\ snd (shr_fexp prec emax m e l) <= Z.max e (Z.max (d + e - 53) (-1074)).
Proof.
  intros Hm Hd. pose proof (Zdigits2_bound m d Hm Hd) as Hdig.
  unfold shr_fexp, shr.
  assert (shr_m (shr_record_of_loc m l) = m) as Em
    by (by destruct l as [|[]]).
  assert (fexp prec emax (Zdigits2 m + e) <= Z.max (d + e - 53) (-1074)) as Hf
    by (unfold fexp, emin, prec, emax; lia).
  destruct (fexp prec emax (Zdigits2 m + e) - e) as [|p|p] eqn:E; simpl;
    rewrite ?Em; try lia.
  pose proof (iter_shr_1_bound p (shr_record_of_loc m l)) as B.
  rewrite Em in B. lia.
Qed.

Lemma round_nearest_even_bound m l :
  0 <= m -> 0 <= round_nearest_even m l <= m + 1.
Proof.
  intros Hm. unfold round_nearest_even.
  destruct l as [|[]]; try lia. destruct (Z.even m); lia.
Qed.

(** Rounding a mantissa below 2^106 at an exponent that is not positive
    does not overflow. *)
Lemma binary_round_aux_finite s m e l s' :
  0 <= m < 2 ^ 106 -> -200 <= e <= 0 ->
  binary_round_aux prec emax s m e l <> S754_infinity s'.
Proof.
  intros Hm He. unfold binary_round_aux.
  pose proof (shr_fexp_bound m e l 106 Hm ltac:(lia)) as [B1 B2].
  destruct (shr_fexp prec emax m e l) as [mrs1 e1]. simpl in B1, B2.
  pose proof (round_nearest_even_bound (shr_m mrs1) (loc_of_shr_record mrs1)
                ltac:(lia)) as R.
  set (m2 := round_nearest_even _ _) in *.
  assert (0 <= m2 < 2 ^ 107) as Hm2.
  { change (2 ^ 107) with (2 * 2 ^ 106). pow_atoms. lia. }
  pose proof (shr_fexp_bound m2 e1 loc_Exact 107 Hm2 ltac:(lia)) as [C1 C2].
  destruct (shr_fexp prec emax m2 e1 loc_Exact) as [mrs2 e2]. simpl in C1, C2.
  destruct (shr_m mrs2); [done| |done].
  assert ((e2 <=? emax - prec) = true) as ->; [|done].
  apply Z.leb_le. unfold emax, prec. lia.
Qed.

Lemma valid_small s n k :
  0 <= k <= 52 -> Zpos (digits2_pos n) = 53 ->
  valid_binary (S754_finite s n (- k)) = true.
Proof.
  intros Hk Hd. unfold SpecFloat.valid_binary, bounded, canonical_mantissa.
  rewrite Hd, fexp_small by lia.
  apply andb_true_iff. split; [apply Z.eqb_eq|apply Z.leb_le];
    unfold emax, prec; lia.
Qed.

Lemma SFdiv_small s1 s2 m1 m2 n1 n2 k1 k2 :
  0 <= k1 <= 52 -> 0 <= k2 <= 52 ->
  Zpos n1 = Zpos m1 * 2 ^ k1 -> Zpos n2 = Zpos m2 * 2 ^ k2 ->
  Zpos (digits2_pos n1) = 53 -> Zpos (digits2_pos n2) = 53 ->
  SFdiv prec emax (S754_finite s1 n1 (- k1)) (S754_finite s2 n2 (- k2))
  = SFdiv prec emax (S754_finite s1 m1 0) (S754_finite s2 m2 0)
  /\ forall s', SFdiv prec emax (S754_finite s1 m1 0) (S754_finite s2 m2 0)
                <> S754_infinity s'.
Proof.
  intros Hk1 Hk2 Hn1 Hn2 Hd1 Hd2. unfold SFdiv.
  rewrite (SFdiv_core_scale m1 m2 n1 n2 k1 k2) by done.
  split; [done|]. intros s'.
  assert (Zpos (digits2_pos m1) = 53 - k1) as Dm1
    by (pose proof (digits2_pos_scale m1 n1 k1); lia).
  assert (Zpos (digits2_pos m2) = 53 - k2) as Dm2
    by (pose proof (digits2_pos_scale m2 n2 k2); lia).
  unfold SFdiv_core_binary. simpl Zdigits2.
  rewrite Dm1, Dm2, fexp_small by lia.
  replace (Z.min (53 - k1 + 0 - (53 - k2 + 0) - 53) (0 - 0))
    with (k2 - k1 - 53) by lia.
  replace (0 - 0 - (k2 - k1 - 53)) with (53 + k1 - k2) by lia.
  destruct (53 + k1 - k2) as [|p|p] eqn:Es; [lia| |lia].
  rewrite <- Es. cbv iota.
  rewrite Z.shiftl_mul_pow2, div_eucl_pair by lia.
  apply binary_round_aux_finite; [|lia].
  pose proof (digits2_pos_bounds m1) as [_ B]. rewrite Dm1 in B.
  assert (0 < 2 ^ (53 + k1 - k2)) by (apply Z.pow_pos_nonneg; lia).
  assert (Zpos m1 * 2 ^ (53 + k1 - k2) < 2 ^ 106).
  { apply Z.lt_le_trans with (2 ^ (53 - k1) * 2 ^ (53 + k1 - k2)).
    - apply Z.mul_lt_mono_pos_r; lia.
    - rewrite <- Z.pow_add_r by lia. apply Z.pow_le_mono_r; lia. }
  split.
  - apply Z.div_pos; lia.
  - apply Z.le_lt_trans with (Zpos m1 * 2 ^ (53 + k1 - k2)); [|done].
    apply Z.div_le_upper_bound; [lia|].
    assert (0 <= Zpos m1 * 2 ^ (53 + k1 - k2)) by lia. nia.
Qed.

Import Interpreter.

(** [float(a)] for an integer below 2^53 in absolute value. *)
Lemma float_of_int_small a :
  Z.abs a < 2 ^ 53 ->
  exists x,
    float_of_int a = Ok x
    /\ ((a = 0 /\ Prim2SF x = S754_zero false)
        \/ exists s m n k,
             Z2SF a = S754_finite s m 0
             /\ Prim2SF x = S754_finite s n (- k)
             /\ 0 <= k <= 52 /\ Zpos n = Zpos m * 2 ^ k
             /\ Zpos (digits2_pos n) = 53).
Proof.
  intros Ha. unfold float_of_int.
  destruct a as [|m|m]; simpl binary_normalize.
  - eexists. split; [done|]. left. split; [done|].
    by apply Prim2SF_SF2Prim.
  - destruct (binary_round_small false m) as (n & k & Hk & Hn & Hd & ->);
      [by simpl in Ha|].
    eexists. split; [done|]. right. exists false, m, n, k.
    split; [done|]. split; [|done]. by apply Prim2SF_SF2Prim, valid_small.
  - destruct (binary_round_small true m) as (n & k & Hk & Hn & Hd & ->);
      [by simpl in Ha|].
    eexists. split; [done|]. right. exists true, m, n, k.
    split; [done|]. split; [|done]. by apply Prim2SF_SF2Prim, valid_small.
Qed.

(** On integers below 2^53 in absolute value, [a / b] is the quotient of
    the two integers as [float]s. *)
Lemma int_truediv_small a b :
  Z.abs a < 2 ^ 53 -> Z.abs b < 2 ^ 53 -> b <> 0 ->
  exists x y,
    float_of_int a = Ok x /\ float_of_int b = Ok y
    /\ int_truediv a b = Ok (VFloat (x / y)).
Proof.
  intros Ha Hb Hb0.
  destruct (float_of_int_small a Ha) as (x & Ex & Hx).
  destruct (float_of_int_small b Hb) as (y & Ey & Hy).
  exists x, y. split; [done|]. split; [done|].
  destruct Hy as [[-> _]|(sb & mb & nb & kb & Zb & Py & Hkb & Hnb & Hdb)];
    [done|].
  unfold int_truediv. apply Z.eqb_neq in Hb0 as ->.
  assert (SFdiv prec emax (Z2SF a) (Z2SF b) = Prim2SF (x / y)
          /\ forall s', SFdiv prec emax (Z2SF a) (Z2SF b) <> S754_infinity s')
    as [E Hfin].
  { rewrite div_spec. unfold SF64div. rewrite Py, Zb.
    destruct Hx as [[-> Px]|(sa & ma & na & ka & Za & Px & Hka & Hna & Hda)];
      rewrite Px.
    - split; [done|]. intros s'. done.
    - rewrite Za.
      destruct (SFdiv_small sa sb ma mb na nb ka kb) as [-> H]; done. }
  unfold finite.
  destruct (SFdiv prec emax (Z2SF a) (Z2SF b)) eqn:R;
    try (by rewrite E, SF2Prim_Prim2SF).
  by destruct (Hfin s).
Qed.

End TrueDivision.


(** C4: [/] is true division whatever the types of its operands. With
    the operands evaluated to [vl] and [vr], a [/] node gives: for two
    [int]s [a] and [b], [b] not 0, the binary64 number nearest to the
    quotient of [a] by [b], rounded once, ties to even (the division of
    IEEE 754 on the two integers taken exactly), or [OverflowError] when
    that is out of range; as soon as one operand is a [float], the
    IEEE 754 quotient of the operands as [float]s, the [int] one
    converted by [float], when the divisor is not zero. The two agree:
    for [int]s below 2^53 in absolute value, which [float] converts
    exactly, the quotient of the [int]s is the IEEE 754 quotient of the
    two as [float]s. So a value of a [/] node is always a [float],
    never an [int]: 4 / 2 is 2.0, 7 / 2 is 3.5, 0 - 7 divided by 2 is
    -3.5 and not the -4 of floor division, 1 / 3 is the [float] nearest
    to a third, 5 / (4 / 2) is 2.5, 5 / 2 / 2 is 1.25, 5 / 2 divided by
    1 / 2 is 5.0; [x = 5 / 2] binds [x] to 2.5. *)
Theorem division_is_true_division :
  (forall l r self vl vr s1 s2,
     Interpreter.evaluate l self = (Ok vl, s1) ->
     Interpreter.evaluate r s1 = (Ok vr, s2) ->
     (forall a b,
        vl = VInt a -> vr = VInt b -> b <> 0%Z ->
        Interpreter.evaluate (BinOp l "/" r) self
        = (match SFdiv prec emax (Interpreter.Z2SF a) (Interpreter.Z2SF b) with
           | S754_infinity _ => Raise OverflowError
           | q => Ok (VFloat (SF2Prim q))
           end, s2))
     /\ (forall x y,
           Interpreter.as_float vl = Ok x ->
           Interpreter.as_float vr = Ok y ->
           (exists f, vl = VFloat f) \/ (exists f, vr = VFloat f) ->
           PrimFloat.eqb y PrimFloat.zero = false ->
           Interpreter.evaluate (BinOp l "/" r) self
           = (Ok (VFloat (PrimFloat.div x y)), s2)))
  /\ (forall l r self a b s1 s2,
        Interpreter.evaluate l self = (Ok (VInt a), s1) ->
        Interpreter.evaluate r s1 = (Ok (VInt b), s2) ->
        (Z.abs a < 2 ^ 53)%Z -> (Z.abs b < 2 ^ 53)%Z -> b <> 0%Z ->
        exists x y,
          Interpreter.float_of_int a = Ok x
          /\ Interpreter.float_of_int b = Ok y
          /\ Interpreter.evaluate (BinOp l "/" r) self
             = (Ok (VFloat (PrimFloat.div x y)), s2))
  /\ (forall l r self v self',
        Interpreter.evaluate (BinOp l "/" r) self = (Ok v, self') ->
        exists f, v = VFloat f)
  /\ Interpreter.evaluate (BinOp (Number 4) "/" (Number 2)) Interpreter.init
     = (Ok (VFloat 2), Interpreter.init)
  /\ Interpreter.evaluate (BinOp (Number 7) "/" (Number 2)) Interpreter.init
     = (Ok (VFloat 3.5), Interpreter.init)
  /\ Interpreter.evaluate
       (BinOp (BinOp (Number 0) "-" (Number 7)) "/" (Number 2))
       Interpreter.init
     = (Ok (VFloat (-3.5)), Interpreter.init)
  /\ Interpreter.evaluate (BinOp (Number 1) "/" (Number 3)) Interpreter.init
     = (Ok (VFloat 0x1.5555555555555p-2), Interpreter.init)
  /\ Interpreter.evaluate
       (BinOp (Number 5) "/" (BinOp (Number 4) "/" (Number 2)))
       Interpreter.init
     = (Ok (VFloat 2.5), Interpreter.init)
  /\ Interpreter.evaluate
       (BinOp (BinOp (Number 5) "/" (Number 2)) "/" (Number 2))
       Interpreter.init
     = (Ok (VFloat 1.25), Interpreter.init)
  /\ Interpreter.evaluate
       (BinOp (BinOp (Number 5) "/" (Number 2)) "/"
              (BinOp (Number 1) "/" (Number 2)))
       Interpreter.init
     = (Ok (VFloat 5), Interpreter.init)
  /\ (exists out,
        main "x = 5 / 2" = Some (Ok out)
        /\ out_ast out
           = [Assign (Identifier "x") (BinOp (Number 5) "/" (Number 2))]
        /\ out_results out = [VFloat 2.5]
        /\ out_variables out = {[ "x" := VFloat 2.5 ]})
  /\ (exists out,
        main "x = 5 / (4 / 2)" = Some (Ok out)
        /\ out_results out = [VFloat 2.5]
        /\ out_variables out = {[ "x" := VFloat 2.5 ]}).
Proof.
  split; [|split; [|split]].
  - intros l r self vl vr s1 s2 El Er. split.
    + intros a b -> -> Hb. simpl. rewrite El, Er. simpl.
      unfold Interpreter.int_truediv, Interpreter.finite.
      apply Z.eqb_neq in Hb as ->.
      by destruct (SFdiv _ _ _ _).
    + intros x y Hx Hy Hf Hz. simpl. rewrite El, Er.
      unfold Interpreter.truediv, Interpreter.floats.
      destruct vl as [a|fl|], vr as [b|fr|]; try done;
        try (destruct Hf as [[? [=]]|[? [=]]]; fail);
        rewrite Hx, Hy, Hz; done.
  - intros l r self a b s1 s2 El Er Ha Hb Hb0.
    destruct (int_truediv_small a b Ha Hb Hb0) as (x & y & Ex & Ey & E).
    exists x, y. split; [done|]. split; [done|].
    simpl. rewrite El, Er. simpl. by rewrite E.
  - intros l r self v self'. simpl.
    destruct (Interpreter.evaluate l self) as [[vl|el] s1]; [|done].
    destruct (Interpreter.evaluate r s1) as [[vr|er] s2]; [|done].
    destruct (Interpreter.truediv vl vr) eqn:E; [|done].
    intros [= <- <-]. by eapply truediv_float.
  - do 7 (split; [vm_compute; reflexivity|]).
    split; eexists; (split; [vm_compute; reflexivity|]);
      repeat split; vm_compute; reflexivity.
Qed.

Lemma division_is_true_division_witness :
  Interpreter.evaluate
    (BinOp (Identifier "x") "/" (Identifier "y"))
    {| Interpreter.variables := {[ "x" := VInt 5; "y" := VFloat 2 ]} |}
  = (Ok (VFloat 2.5),
     {| Interpreter.variables := {[ "x" := VInt 5; "y" := VFloat 2 ]} |}).
Proof.
  refine (proj2 (proj1 division_is_true_division
            (Identifier "x") (Identifier "y")
            {| Interpreter.variables := {[ "x" := VInt 5; "y" := VFloat 2 ]} |}
            (VInt 5) (VFloat 2) _ _ _ _) 5%float 2%float _ _ _ _).
  - vm_compute. reflexivity.
  - vm_compute. reflexivity.
  - vm_compute. reflexivity.
  - reflexivity.
  - right. by eexists.
  - vm_compute. reflexivity.
Defined.

(** C6: an assignment evaluates its right-hand side first, stores the
    value under the target, over whatever the target held, and returns the
    value; the script runs the statements in order, each on the variables
    the one before left. [x = 10] and, on the next line, [y = x + 1] end
    with [x] at 10 and [y] at 11. *)
Theorem assignment_stores_and_returns :
  (forall name e self v self',
     Interpreter.evaluate e self = (Ok v, self') ->
     Interpreter.evaluate (Assign (Identifier name) e) self
     = (Ok v, {| Interpreter.variables :=
                   <[name := v]> (Interpreter.variables self') |})
     /\ <[name := v]> (Interpreter.variables self') !! name = Some v)
  /\ (forall node rest self v self',
        Interpreter.evaluate node self = (Ok v, self') ->
        Interpreter.run (node :: rest) self
        = match Interpreter.run rest self' with
          | (Ok vs, self'') => (Ok (v :: vs), self'')
          | (Raise e, self'') => (Raise e, self'')
          end)
  /\ (exists out,
        main ("x = 10" +:+ String "010" "y = x + 1") = Some (Ok out)
        /\ out_ast out
           = [ Assign (Identifier "x") (Number 10);
               Assign (Identifier "y")
                 (BinOp (Identifier "x") "+" (Number 1)) ]
        /\ out_results out = [VInt 10; VInt 11]
        /\ out_variables out = {[ "x" := VInt 10; "y" := VInt 11 ]}).
Proof.
  split; [|split].
  - intros name e self v self' E. simpl. rewrite E.
    split; [done|]. apply lookup_insert_eq.
  - intros node rest self v self' E. simpl. by rewrite E.
  - eexists. split; [vm_compute; reflexivity|].
    repeat split; vm_compute; reflexivity.
Qed.

Lemma assignment_stores_and_returns_witness :
  Interpreter.evaluate (Assign (Identifier "x") (Number 10))
    {| Interpreter.variables := {[ "x" := VInt 3 ]} |}
  = (Ok (VInt 10),
     {| Interpreter.variables := <["x" := VInt 10]> {[ "x" := VInt 3 ]} |})
  /\ <["x" := VInt 10]> ({[ "x" := VInt 3 ]} : gmap string val) !! "x"
     = Some (VInt 10).
Proof.
  exact (proj1 assignment_stores_and_returns "x" (Number 10)
           {| Interpreter.variables := {[ "x" := VInt 3 ]} |} (VInt 10)
           {| Interpreter.variables := {[ "x" := VInt 3 ]} |} eq_refl).
Defined.

(** ** The script *)

Section Pipeline.

(** Any fuel from the length of the text left on gives [tokenize] the
    same end. *)
Lemma tokenize_loop_fuel fuel : forall fuel' self,
  length (Lexer.code self) - Lexer.pos self <= fuel ->
  length (Lexer.code self) - Lexer.pos self <= fuel' ->
  Lexer.tokenize_loop TOKEN_TYPES fuel self
  = Lexer.tokenize_loop TOKEN_TYPES fuel' self.
Proof.
  induction fuel as [|fuel IH]; intros [|fuel'] self Hf Hf'; simpl;
    destruct (Lexer.pos self <? length (Lexer.code self)) eqn:E;
    try done; apply Nat.ltb_lt in E; try lia.
  destruct (split_at _ _ E) as (pre & a & post & Hc & Hp).
  destruct self as [c p toks]. simpl in *. subst c p.
  destruct (step_progress pre a post toks) as (self' & -> & Hc' & Hp').
  apply IH; rewrite Hc'; lia.
Qed.

(** The script ends on every source text, in an output or in an
    exception. *)
Lemma main_total code : exists r, main code = Some r.
Proof.
  unfold main.
  unfold Lexer.tokenize, Lexer.tokenize_with.
  destruct (tokenize_loop_total _
              (Lexer.init (String.list_ascii_of_string code)) (le_n _))
    as (lexer & -> & _).
  destruct (parse_from_total [] (Parser.init (Lexer.tokens lexer)))
    as (r & parser & E & _).
  unfold Parser.parse. rewrite E.
  destruct r as [ast|e]; [|by eexists].
  destruct (Interpreter.run ast Interpreter.init) as [[results|e] interp];
    by eexists.
Qed.

End Pipeline.

(** * Further properties of the code *)

Section MoreMatching.

Import Re.

Lemma star_take c s n : n ∈ star c s -> forall m, n <= m -> n ∈ star c (take m s).
Proof.
  revert n; induction s as [|a s IH]; intros n; simpl.
  - intros ->%list_elem_of_singleton m _. rewrite take_nil. simpl. left.
  - destruct (in_cls c a) eqn:E.
    + rewrite elem_of_app, list_elem_of_fmap.
      intros [(k & -> & Hk) | ->%list_elem_of_singleton] m Hm.
      * destruct m as [|m]; [lia|]. simpl. rewrite E.
        apply elem_of_app. left. apply list_elem_of_fmap.
        exists k. split; [done|]. apply IH; [done|lia].
      * destruct m as [|m]; simpl; [left|]. rewrite E.
        apply elem_of_app. right. left.
    + intros ->%list_elem_of_singleton m _.
      destruct m; simpl; [left|]. rewrite E. left.
Qed.

(** A match depends only on the characters it takes. *)
Lemma ends_take r : forall s n m,
  n ∈ ends r s -> n <= m -> n ∈ ends r (take m s).
Proof.
  induction r as [c|c|c|r1 IH1 r2 IH2]; intros s n m; simpl.
  - destruct s as [|a s]; [by intros ?%elem_of_nil|].
    destruct (in_cls c a) eqn:E; [|by intros ?%elem_of_nil].
    intros ->%list_elem_of_singleton Hm.
    destruct m; [lia|]. simpl. rewrite E. left.
  - intros. by apply star_take.
  - destruct s as [|a s]; [by intros ?%elem_of_nil|].
    destruct (in_cls c a) eqn:E; [|by intros ?%elem_of_nil].
    intros (k & -> & Hk)%(proj1 (list_elem_of_fmap _ _ _)) Hm.
    destruct m; [lia|]. simpl. rewrite E. apply list_elem_of_fmap.
    exists k. split; [done|]. apply star_take; [done|lia].
  - intros (n1 & Hin & H1)%list_elem_of_bind Hm.
    apply list_elem_of_fmap in Hin as (n2 & -> & H2).
    apply list_elem_of_bind. exists n1. split.
    + apply list_elem_of_fmap. exists n2. split; [done|].
      replace m with (n1 + (m - n1)) by lia.
      rewrite <- take_drop_commute. apply IH2; [done|lia].
    + apply IH1; [done|lia].
Qed.

Lemma match_fullmatch r code pos v e :
  match_ r code pos = Some (v, e) ->
  fullmatch r v = true
  /\ v = take (e - pos) (drop pos code) /\ pos <= e.
Proof.
  unfold match_, fullmatch.
  destruct (ends r (drop pos code)) as [|n l] eqn:E; [done|].
  intros [= <- <-].
  assert (Hn : n ∈ ends r (drop pos code)) by (rewrite E; left).
  pose proof (ends_bound _ _ _ Hn) as Hb. rewrite length_drop in Hb.
  split; [|split; [f_equal; lia|lia]].
  apply existsb_exists. exists n. split.
  - apply list_elem_of_In. by apply ends_take.
  - apply Nat.eqb_eq. rewrite length_take, length_drop. lia.
Qed.

Lemma star_chars c s n : n ∈ star c s -> Forall (fun a => in_cls c a = true) (take n s).
Proof.
  revert n; induction s as [|a s IH]; intros n; simpl.
  - intros _. rewrite take_nil. constructor.
  - destruct (in_cls c a) eqn:E.
    + rewrite elem_of_app, list_elem_of_fmap.
      intros [(k & -> & Hk) | ->%list_elem_of_singleton]; simpl;
        constructor; auto.
    + intros ->%list_elem_of_singleton. constructor.
Qed.

Lemma ends_chars r : forall s n,
  n ∈ ends r s -> Forall (fun a => chars r a = true) (take n s).
Proof.
  induction r as [c|c|c|r1 IH1 r2 IH2]; intros s n; simpl.
  - destruct s as [|a s]; [by intros ?%elem_of_nil|].
    destruct (in_cls c a) eqn:E; [|by intros ?%elem_of_nil].
    intros ->%list_elem_of_singleton. simpl. rewrite take_0. by repeat constructor.
  - apply star_chars.
  - destruct s as [|a s]; [by intros ?%elem_of_nil|].
    destruct (in_cls c a) eqn:E; [|by intros ?%elem_of_nil].
    intros (k & -> & Hk)%(proj1 (list_elem_of_fmap _ _ _)). simpl.
    constructor; [done|]. by apply star_chars.
  - intros (n1 & Hin & H1)%list_elem_of_bind.
    apply list_elem_of_fmap in Hin as (n2 & -> & H2).
    rewrite <- take_take_drop. apply Forall_app. split.
    + eapply Forall_impl; [by apply IH1|]. simpl. by intros a ->.
    + eapply Forall_impl; [by apply IH2|]. simpl. intros a ->.
      by rewrite orb_true_r.
Qed.

(** The first candidate of [c*] is the longest run of [c]. *)
Lemma star_longest c s :
  exists n rest,
    star c s = n :: rest
    /\ forall a, s !! n = Some a -> in_cls c a = false.
Proof.
  induction s as [|a s (n & rest & E & H)]; simpl.
  - exists 0, []. split; [done|]. done.
  - destruct (in_cls c a) eqn:Ea.
    + rewrite E. simpl. exists (S n), (map S rest ++ [0]). split; [done|].
      intros b. simpl. apply H.
    + exists 0, []. split; [done|]. intros b [= <-]. done.
Qed.

End MoreMatching.

Section MoreLexer.

Import Lexer.

Lemma first_match_row table code pos ty v e :
  first_match table code pos = Some (ty, v, e) ->
  exists pattern, (ty, pattern) ∈ table
                  /\ Re.match_ pattern code pos = Some (v, e).
Proof.
  induction table as [|[ty' r] table IH]; simpl; [done|].
  destruct (Re.match_ r code pos) as [[v' e']|] eqn:E.
  - intros [= <- <- <-]. exists r. split; [left|done].
  - intros (p & Hp & Hm)%IH. exists p. split; [by right|done].
Qed.

Lemma text_of_chars ty v :
  text {| type := ty; value := String.string_of_list_ascii v |} = v.
Proof. apply String.list_ascii_of_string_of_list_ascii. Qed.

(** What one iteration of the loop does to the token list. *)
Lemma step_tokens table self self' :
  step table self = (Ok tt, self') ->
  exists ty v,
    first_match table (code self) (pos self) = Some (ty, v, pos self')
    /\ code self' = code self
    /\ tokens self' =
         if String.eqb ty "SKIP" then tokens self
         else tokens self
              ++ [{| type := ty; value := String.string_of_list_ascii v |}].
Proof.
  unfold step.
  destruct (first_match table (code self) (pos self)) as [[[ty v] e]|];
    [|done].
  intros [= <-]. by exists ty, v.
Qed.

Lemma tokenize_loop_emitted table fuel : forall self toks self',
  Forall (emitted_by table) (tokens self) ->
  tokenize_loop table fuel self = Some (Ok toks, self') ->
  Forall (emitted_by table) toks.
Proof.
  induction fuel as [|fuel IH]; intros self toks self' Hinv; simpl;
    destruct (pos self <? length (code self)) eqn:E; try done;
    try by intros [= <- <-].
  destruct (step table self) as [[[]|e] s1] eqn:Hs; [|done].
  apply step_tokens in Hs as (ty & v & Hm & Hc & Ht).
  apply IH. rewrite Ht.
  destruct (String.eqb_spec ty "SKIP") as [_|Hty]; [done|].
  apply Forall_app. split; [done|]. constructor; [|done].
  split; [done|]. simpl.
  apply first_match_row in Hm as (r & Hr & Hm).
  exists r. split; [done|]. rewrite text_of_chars.
  by apply match_fullmatch in Hm as (? & _).
Qed.

Lemma fullmatch_nonempty r s :
  Re.consuming r = true -> fullmatch r s = true -> s <> [].
Proof.
  unfold fullmatch. intros Hc (n & Hn & E)%existsb_exists ->.
  apply Nat.eqb_eq in E. simpl in E. subst n.
  apply list_elem_of_In, (ends_consuming _ Hc) in Hn. lia.
Qed.

End MoreLexer.

(** X1: every token [tokenize] returns has the type of a row of the table
    other than SKIP, a text that the row's pattern matches in full, and
    so a text that is not empty; no token has the type of the parser's
    end marker. *)
Theorem tokens_match_their_patterns code toks self' :
  Lexer.tokenize (Lexer.init code) = Some (Ok toks, self') ->
  Forall (fun tok =>
            emitted_by TOKEN_TYPES tok
            /\ type tok <> "EOF" /\ text tok <> []) toks.
Proof.
  intros H. eapply tokenize_loop_emitted in H; [|constructor].
  eapply Forall_impl; [exact H|]. simpl.
  intros tok Htok. split; [done|].
  destruct Htok as (_ & r & Hr & Hm).
  assert (Forall (fun p => fst p <> "EOF" /\ Re.consuming (snd p) = true)
            TOKEN_TYPES) as Hall by (repeat constructor; done).
  rewrite Forall_forall in Hall. destruct (Hall _ Hr) as [? ?].
  split; [done|]. by eapply fullmatch_nonempty.
Qed.

Lemma tokens_match_their_patterns_witness :
  Forall (fun tok =>
            emitted_by TOKEN_TYPES tok
            /\ type tok <> "EOF" /\ text tok <> [])
    [ {| type := "IDENTIFIER"; value := "x1" |};
      {| type := "ASSIGN"; value := "=" |};
      {| type := "NUMBER"; value := "42" |} ].
Proof.
  apply (tokens_match_their_patterns
           (String.list_ascii_of_string "x1 = 42") _
           {| Lexer.code := String.list_ascii_of_string "x1 = 42";
              Lexer.pos := 7;
              Lexer.tokens :=
                [ {| type := "IDENTIFIER"; value := "x1" |};
                  {| type := "ASSIGN"; value := "=" |};
                  {| type := "NUMBER"; value := "42" |} ] |}).
  vm_compute. reflexivity.
Defined.

Section LexerCover.

Import Lexer.

Lemma match_chars r code pos v e :
  Re.match_ r code pos = Some (v, e) ->
  Forall (fun a => chars r a = true) v.
Proof.
  unfold Re.match_.
  destruct (Re.ends r (drop pos code)) as [|n l] eqn:E; [done|].
  intros [= <- <-]. apply ends_chars. rewrite E. left.
Qed.

Lemma star_nonempty c s : Re.star c s <> [].
Proof. by destruct (star_longest c s) as (n & rest & -> & _). Qed.

(** A matched text is made of blanks when the row is SKIP and holds no
    blank otherwise. *)
Lemma first_match_blank code pos ty v e :
  first_match TOKEN_TYPES code pos = Some (ty, v, e) ->
  Forall (fun a => blank a = String.eqb ty "SKIP") v.
Proof.
  unfold TOKEN_TYPES. cbn [first_match].
  repeat match goal with
  | |- context [Re.match_ ?r code pos] =>
      destruct (Re.match_ r code pos) as [[? ?]|] eqn:?
  end; try done; intros [= <- <- <-];
  try (match goal with
       | H : Re.match_ (Re.One Re.Dot) _ _ = Some _ |- _ => fail 1
       | H : Re.match_ _ _ _ = Some _ |- _ => apply match_chars in H
       end;
       eapply Forall_impl; [eassumption|];
       intros [[] [] [] [] [] [] [] []]; vm_compute; congruence).
  unfold Re.match_ in *. destruct (drop pos code) as [|a rest]; [done|].
  simpl in *.
  destruct (Ascii.eqb a "010"); simpl in *; [done|]. simplify_eq.
  rewrite take_0. repeat constructor.
  destruct a as [[] [] [] [] [] [] [] []]; try reflexivity; simpl in *;
    by destruct (star_nonempty
                   (Re.Set_ [(" ", " "); ("009", "009")]%char) rest);
    destruct (Re.star _ rest).
Qed.

Lemma filter_blank (ty : string) v :
  Forall (fun a => blank a = String.eqb ty "SKIP") v ->
  List.filter (fun a => negb (blank a)) v
  = if String.eqb ty "SKIP" then [] else v.
Proof.
  induction 1 as [|a v Ha _ IH]; simpl; [by destruct (String.eqb _ _)|].
  rewrite Ha, IH. by destruct (String.eqb ty "SKIP").
Qed.

Lemma tokenize_loop_cover fuel : forall self toks self',
  pos self <= length (code self) ->
  concat (map text (tokens self))
  = List.filter (fun a => negb (blank a)) (take (pos self) (code self)) ->
  tokenize_loop TOKEN_TYPES fuel self = Some (Ok toks, self') ->
  concat (map text toks)
  = List.filter (fun a => negb (blank a)) (code self).
Proof.
  induction fuel as [|fuel IH]; intros self toks self' Hp Hinv; simpl;
    destruct (pos self <? length (code self)) eqn:E; try done;
    try (apply Nat.ltb_ge in E; intros [= <- <-];
         by rewrite Hinv, take_ge by lia).
  destruct (step TOKEN_TYPES self) as [[[]|e] s1] eqn:Hs; [|done].
  apply step_tokens in Hs as (ty & v & Hm & Hc & Ht).
  pose proof (first_match_progress TOKEN_TYPES _ _ _ _ _ eq_refl Hm) as Hpos.
  pose proof (first_match_blank _ _ _ _ _ Hm) as Hb%filter_blank.
  apply first_match_row in Hm as (r & _ & (_ & Hv & _)%match_fullmatch).
  intros H. rewrite <- Hc. apply IH in H; [done|rewrite Hc; lia|].
  rewrite Hc.
  replace (pos s1) with (pos self + (pos s1 - pos self)) by lia.
  rewrite <- take_take_drop, List.filter_app, <- Hv, Hb, <- Hinv, Ht.
  destruct (String.eqb ty "SKIP"); [by rewrite app_nil_r|].
  by rewrite map_app, concat_app; simpl; rewrite text_of_chars, app_nil_r.
Qed.

End LexerCover.

(** X2: the lexer loses nothing but blanks: the texts of the tokens that
    [tokenize] returns, put end to end, are the source text without its
    spaces and tabs. *)
Theorem tokens_cover_source code toks self' :
  Lexer.tokenize (Lexer.init code) = Some (Ok toks, self') ->
  concat (map text toks) = List.filter (fun a => negb (blank a)) code.
Proof.
  intros H.
  apply (tokenize_loop_cover _ (Lexer.init code)) in H; simpl; [done|lia|done].
Qed.

Lemma tokens_cover_source_witness :
  concat (map text [ {| type := "IDENTIFIER"; value := "x1" |};
                     {| type := "ASSIGN"; value := "=" |};
                     {| type := "NUMBER"; value := "42" |} ])
  = List.filter (fun a => negb (blank a))
      (String.list_ascii_of_string "x1 = 42").
Proof.
  apply (tokens_cover_source
           (String.list_ascii_of_string "x1 = 42") _
           {| Lexer.code := String.list_ascii_of_string "x1 = 42";
              Lexer.pos := 7;
              Lexer.tokens :=
                [ {| type := "IDENTIFIER"; value := "x1" |};
                  {| type := "ASSIGN"; value := "=" |};
                  {| type := "NUMBER"; value := "42" |} ] |}).
  vm_compute. reflexivity.
Defined.

Section LongestMatch.

Import Lexer.

Lemma many1_match c code pos v e :
  Re.match_ (Re.Many1 c) code pos = Some (v, e) ->
  v <> [] /\ Forall (fun a => Re.in_cls c a = true) v
  /\ e = pos + length v
  /\ forall a, code !! e = Some a -> Re.in_cls c a = false.
Proof.
  unfold Re.match_. simpl.
  destruct (drop pos code) as [|a rest] eqn:Hd; [done|].
  destruct (Re.in_cls c a) eqn:Ea; [|done].
  destruct (star_longest c rest) as (n & l & Hs & Hn). rewrite Hs. simpl.
  intros [= <- <-].
  assert (Hin : n ∈ Re.star c rest) by (rewrite Hs; left).
  pose proof (star_bound _ _ _ Hin). pose proof (star_chars _ _ _ Hin).
  split; [done|]. split; [by constructor|]. split.
  - simpl. rewrite length_take. lia.
  - intros b Hb. apply Hn.
    rewrite <- (lookup_drop code pos (S n)), Hd in Hb. done.
Qed.

Lemma name_match s w code pos v e :
  Re.match_ (Re.Seq (Re.One s) (Re.Many w)) code pos = Some (v, e) ->
  exists a t, v = a :: t /\ Re.in_cls s a = true
    /\ Forall (fun b => Re.in_cls w b = true) t
    /\ e = pos + length v
    /\ forall b, code !! e = Some b -> Re.in_cls w b = false.
Proof.
  unfold Re.match_. simpl.
  destruct (drop pos code) as [|a rest] eqn:Hd; [done|].
  destruct (Re.in_cls s a) eqn:Ea; [|done]. simpl. rewrite drop_0.
  destruct (star_longest w rest) as (n & l & Hs & Hn). rewrite Hs. simpl.
  intros [= <- <-].
  assert (Hin : n ∈ Re.star w rest) by (rewrite Hs; left).
  pose proof (star_bound _ _ _ Hin). pose proof (star_chars _ _ _ Hin).
  exists a, (take n rest). split; [done|]. split; [done|]. split; [done|].
  split.
  - simpl. rewrite length_take. lia.
  - intros b Hb. apply Hn.
    rewrite <- (lookup_drop code pos (S n)), Hd in Hb. done.
Qed.

End LongestMatch.

(** X3: numbers and names are taken whole. When the loop of [tokenize]
    picks the NUMBER row at a cursor, the text is a run of digits, not
    empty, and the character behind it, if any, is no digit; when it
    picks the IDENTIFIER row, the text is a letter or underscore followed
    by word characters, and the character behind it is no word
    character. *)
Theorem numbers_and_names_are_maximal code pos v e :
  (Lexer.first_match TOKEN_TYPES code pos = Some ("NUMBER", v, e) ->
   v <> [] /\ Forall (fun a => Re.is_digit a = true) v
   /\ e = pos + length v
   /\ forall a, code !! e = Some a -> Re.is_digit a = false)
  /\ (Lexer.first_match TOKEN_TYPES code pos = Some ("IDENTIFIER", v, e) ->
      exists a t,
        v = a :: t
        /\ Re.in_cls (Re.Set_ [("a", "z"); ("A", "Z"); ("_", "_")]%char) a
           = true
        /\ Forall (fun b => Re.is_word b = true) t
        /\ e = pos + length v
        /\ forall b, code !! e = Some b -> Re.is_word b = false).
Proof.
  unfold TOKEN_TYPES. cbn [Lexer.first_match].
  destruct (Re.match_ (Re.Many1 Re.Digit) code pos) as [[v1 e1]|] eqn:E1.
  { split; [|done]. intros [= <- <-]. by apply many1_match in E1. }
  destruct (Re.match_ (Re.Seq _ _) code pos) as [[v2 e2]|] eqn:E2.
  { split; [done|]. intros [= <- <-]. by apply name_match in E2. }
  split;
    repeat match goal with
    | |- context [Re.match_ ?r code pos] =>
        destruct (Re.match_ r code pos) as [[? ?]|]
    end; done.
Qed.

Lemma numbers_and_names_are_maximal_witness :
  String.list_ascii_of_string "12" <> []
  /\ Forall (fun a => Re.is_digit a = true) (String.list_ascii_of_string "12")
  /\ 2 = 0 + length (String.list_ascii_of_string "12")
  /\ forall a, String.list_ascii_of_string "12x" !! 2 = Some a ->
               Re.is_digit a = false.
Proof.
  exact (proj1 (numbers_and_names_are_maximal
                  (String.list_ascii_of_string "12x") 0
                  (String.list_ascii_of_string "12") 2) eq_refl).
Defined.

Section NumberTokens.

Local Arguments Nat.ltb : simpl never.

Lemma digits_decimal s : forall acc count,
  Forall (fun a => Re.is_digit a = true) s ->
  Py.digits acc count false s
  = if Py.int_max_str_digits <? count + length s
    then Py.TooLong (count + length s)
    else Py.Value (decimal acc s).
Proof.
  induction s as [|a s IH]; intros acc count.
  - intros _. simpl. by rewrite Nat.add_0_r.
  - intros [Ha Hs]%Forall_cons_1. simpl. rewrite Ha, IH by done.
    by rewrite Nat.add_succ_r.
Qed.

Lemma decimal_nonneg s : forall acc,
  Forall (fun a => Re.is_digit a = true) s ->
  (0 <= acc)%Z -> (0 <= decimal acc s)%Z.
Proof.
  induction s as [|a s IH]; intros acc; [done|].
  intros [Ha Hs]%Forall_cons_1 Hacc. simpl. apply IH; [done|].
  unfold Re.is_digit, Re.between in Ha. unfold Py.digit_val.
  apply andb_true_iff in Ha as [?%Nat.leb_le ?%Nat.leb_le]. lia.
Qed.

Lemma lstrip_digit a s :
  Re.is_digit a = true -> Py.lstrip (a :: s) = a :: s.
Proof.
  intros Ha. simpl.
  destruct a as [[] [] [] [] [] [] [] []]; try reflexivity; discriminate Ha.
Qed.

(** [int] on a run of digits: its decimal value, unless the run is longer
    than the limit. *)
Lemma int_literal_digits s :
  digit_run s ->
  Py.int_literal (String.string_of_list_ascii s)
  = if Py.int_max_str_digits <? length s
    then Py.TooLong (length s)
    else Py.Value (decimal 0 s).
Proof.
  intros [Hne Hs].
  unfold Py.int_literal. rewrite String.list_ascii_of_string_of_list_ascii.
  destruct s as [|a s]; [done|].
  pose proof Hs as [Ha Hs1]%Forall_cons_1.
  rewrite lstrip_digit by done.
  assert (exists b t, rev (a :: s) = b :: t /\ Re.is_digit b = true)
    as (b & t & Hr & Hb).
  { destruct (rev (a :: s)) as [|b t] eqn:Hr.
    - apply (f_equal (@length _)) in Hr. rewrite length_rev in Hr. done.
    - exists b, t. split; [done|].
      rewrite Forall_forall in Hs. apply Hs.
      apply list_elem_of_In, in_rev. rewrite Hr. by left. }
  rewrite Hr, lstrip_digit, <- Hr, rev_involutive by done.
  transitivity (Py.unsigned (a :: s)).
  - destruct a as [[] [] [] [] [] [] [] []]; try reflexivity;
      discriminate Ha.
  - simpl. rewrite Ha. by rewrite digits_decimal.
Qed.

Lemma str_limit : Py.str Py.int_max_str_digits = "4300".
Proof. vm_compute. reflexivity. Qed.

(** [Number.__init__] on a token made of digits. *)
Lemma Number_init_digits v :
  digit_run (String.list_ascii_of_string v) ->
  Number_init v
  = if Py.int_max_str_digits <? length (String.list_ascii_of_string v)
    then Raise (too_many_digits (length (String.list_ascii_of_string v)))
    else Ok (Number (decimal 0 (String.list_ascii_of_string v))).
Proof.
  intros H. apply int_literal_digits in H.
  rewrite String.string_of_list_ascii_of_string in H.
  unfold Number_init, Py.int, Py.int_error, too_many_digits. rewrite H.
  destruct (Py.int_max_str_digits <? _); [|done].
  by rewrite str_limit.
Qed.

(** The text of a NUMBER token of the lexer is a run of digits. *)
Lemma emitted_number tok :
  emitted_by TOKEN_TYPES tok -> type tok = "NUMBER" -> digit_run (text tok).
Proof.
  intros (_ & r & Hr & Hm) Hty. rewrite Hty in Hr.
  assert (r = Re.Many1 Re.Digit) as ->.
  { unfold TOKEN_TYPES in Hr.
    repeat (apply elem_of_cons in Hr as [Hr|Hr]; [by simplify_eq|]).
    by apply elem_of_nil in Hr. }
  unfold fullmatch in Hm. apply existsb_exists in Hm as (n & Hn & E).
  apply Nat.eqb_eq in E. subst n. apply list_elem_of_In in Hn.
  pose proof (ends_chars _ _ _ Hn) as Hd. rewrite take_ge in Hd by done.
  pose proof (ends_consuming (Re.Many1 Re.Digit) eq_refl _ _ Hn) as Hl.
  split; [|done]. intros E. rewrite E in Hl. simpl in Hl. lia.
Qed.

End NumberTokens.

(** X4: what [Number.__init__] makes of a token of the lexer. The text
    of a NUMBER token that [tokenize] returns is a run of digits, so
    [int] can refuse it for its length only: with at most 4300 digits the
    node holds the decimal value of the text, which is not negative, and
    with more digits [int] raises the [ValueError] of its digit limit. *)
Theorem lexed_numbers_convert code toks self' tok :
  Lexer.tokenize (Lexer.init code) = Some (Ok toks, self') ->
  tok ∈ toks -> type tok = "NUMBER" ->
  (0 <= decimal 0 (text tok))%Z
  /\ (length (text tok) <= Py.int_max_str_digits ->
      Number_init (value tok) = Ok (Number (decimal 0 (text tok))))
  /\ (Py.int_max_str_digits < length (text tok) ->
      Number_init (value tok)
      = Raise (too_many_digits (length (text tok)))).
Proof.
  intros H Hin Hty.
  eapply tokenize_loop_emitted in H; [|constructor].
  rewrite Forall_forall in H.
  pose proof (emitted_number _ (H _ Hin) Hty) as Hd.
  split; [apply decimal_nonneg; [apply Hd|done]|].
  pose proof (Number_init_digits _ Hd) as E. fold (text tok) in E.
  split; intros Hl; rewrite E.
  - by apply Nat.ltb_ge in Hl as ->.
  - by apply Nat.ltb_lt in Hl as ->.
Qed.

Lemma lexed_numbers_convert_witness :
  Number_init "42" = Ok (Number 42).
Proof.
  refine (proj1 (proj2 (lexed_numbers_convert
           (String.list_ascii_of_string "x1 = 42")
           [ {| type := "IDENTIFIER"; value := "x1" |};
             {| type := "ASSIGN"; value := "=" |};
             {| type := "NUMBER"; value := "42" |} ]
           {| Lexer.code := String.list_ascii_of_string "x1 = 42";
              Lexer.pos := 7;
              Lexer.tokens :=
                [ {| type := "IDENTIFIER"; value := "x1" |};
                  {| type := "ASSIGN"; value := "=" |};
                  {| type := "NUMBER"; value := "42" |} ] |}
           {| type := "NUMBER"; value := "42" |} _ _ _)) _).
  - vm_compute. reflexivity.
  - apply list_elem_of_In. simpl. auto.
  - reflexivity.
  - apply Nat.leb_le. vm_compute. reflexivity.
Defined.

Section MoreParser.

Import Parser.

Local Arguments is_in : simpl never.
Local Arguments advance : simpl never.
Local Arguments peek : simpl never.

(** When the loop of [parse] returns, it stands at the end marker. *)
Lemma parse_loop_ends fuel : forall statements self l self',
  parse_loop fuel statements self = Some (Ok l, self') ->
  type (peek self') = "EOF".
Proof.
  induction fuel as [|fuel IH]; intros statements self l self'; [done|].
  simpl. unfold bind at 1. unfold current_token at 1.
  destruct (String.eqb_spec (type (peek self)) "EOF") as [E|_]; simpl.
  { by intros [= <- <-]. }
  destruct (String.eqb (type (peek self)) "NEWLINE").
  - unfold bind.
    destruct (consume "NEWLINE" self) as [[[[]|e] s]|]; [apply IH|done..].
  - unfold bind.
    destruct (assignment fuel self) as [[[node|e] s]|]; [apply IH|done..].
Qed.

Lemma factor_identifier fuel self :
  type (peek self) = "IDENTIFIER" ->
  factor (S fuel) self
  = Some (Ok (Identifier (value (peek self))), advance self).
Proof.
  intros T. simpl. unfold bind, current_token, consume, bind, current_token,
    ret. rewrite T. simpl. by rewrite T.
Qed.

Lemma factor_paren fuel self node self' :
  type (peek self) = "LPAREN" ->
  expr fuel (advance self) = Some (Ok node, self') ->
  type (peek self') = "RPAREN" ->
  factor (S fuel) self = Some (Ok node, advance self').
Proof.
  intros T E R. simpl.
  unfold bind, current_token, consume, bind, current_token, ret.
  rewrite T. simpl. rewrite T. simpl. rewrite E. simpl. by rewrite R.
Qed.

Lemma factor_unclosed fuel self node self' :
  type (peek self) = "LPAREN" ->
  expr fuel (advance self) = Some (Ok node, self') ->
  String.eqb (type (peek self')) "RPAREN" = false ->
  factor (S fuel) self
  = Some (Raise (SyntaxError
                   ("Expected RPAREN, got " +:+ type (peek self'))), self').
Proof.
  intros T E R. simpl.
  unfold bind, current_token, consume, bind, current_token, ret, raise.
  rewrite T. simpl. rewrite T. simpl. rewrite E. simpl. by rewrite R.
Qed.

Lemma factor_unexpected fuel self :
  is_in (type (peek self)) ["NUMBER"; "IDENTIFIER"; "LPAREN"] = false ->
  factor (S fuel) self
  = Some (Raise (SyntaxError
                   ("Unexpected token: " +:+ Token_repr (peek self))), self).
Proof.
  unfold is_in. simpl. rewrite orb_false_r.
  intros [T1 [T2 T3]%orb_false_iff]%orb_false_iff.
  unfold bind, current_token, raise. by rewrite T1, T2, T3.
Qed.

Lemma term_raises fuel self e self' :
  factor fuel self = Some (Raise e, self') ->
  term (S fuel) self = Some (Raise e, self').
Proof. intros F. simpl. unfold bind. by rewrite F. Qed.

Lemma term_loop_raises fuel node self e self' :
  is_in (type (peek self)) ["MULTIPLY"; "DIVIDE"] = true ->
  factor fuel (advance self) = Some (Raise e, self') ->
  term_loop (S fuel) node self = Some (Raise e, self').
Proof.
  intros T F. simpl. unfold bind at 1. unfold current_token at 1.
  rewrite T. unfold bind at 1. unfold consume, bind, current_token.
  rewrite String.eqb_refl. by rewrite F.
Qed.

Lemma expr_raises fuel self e self' :
  term fuel self = Some (Raise e, self') ->
  expr (S fuel) self = Some (Raise e, self').
Proof. intros F. simpl. unfold bind. by rewrite F. Qed.

Lemma assignment_raises fuel self e self' :
  type (peek self) = "IDENTIFIER" ->
  type (peek (advance self)) = "ASSIGN" ->
  expr fuel (advance (advance self)) = Some (Raise e, self') ->
  assignment fuel self = Some (Raise e, self').
Proof.
  intros I A E.
  unfold assignment, identifier, consume, bind, current_token, ret.
  rewrite I. simpl. rewrite I. simpl. rewrite A. simpl. by rewrite E.
Qed.

Lemma parse_loop_raises fuel statements self e self' :
  String.eqb (type (peek self)) "EOF" = false ->
  String.eqb (type (peek self)) "NEWLINE" = false ->
  assignment fuel self = Some (Raise e, self') ->
  parse_loop (S fuel) statements self = Some (Raise e, self').
Proof.
  intros E N A. simpl. unfold bind at 1. unfold current_token at 1.
  rewrite E, N. simpl. unfold bind. by rewrite A.
Qed.

End MoreParser.

(** X5: [parse] ends on every token list, in an exception or in a list
    of statements. It leaves the token list as it was; every statement it
    returns is an assignment of a tree of numbers, names and operators to
    a name; and it returns only at the end marker. *)
Theorem parse_returns_assignments tokens :
  exists r self',
    Parser.parse (Parser.init tokens) = Some (r, self')
    /\ Parser.tokens self' = tokens
    /\ forall l, r = Ok l ->
         Forall (fun node => statement node = true) l
         /\ type (Parser.peek self') = "EOF".
Proof.
  destruct (parse_from_total [] (Parser.init tokens))
    as (r & self' & E & Ht & Hl).
  exists r, self'. split; [done|]. split; [done|].
  intros l ->. destruct (Hl _ eq_refl) as (new & -> & Hnew). split.
  - eapply Forall_impl; [exact Hnew|]. simpl. intros node.
    by destruct (statement node).
  - eapply parse_loop_ends. exact E.
Qed.

Ltac parser_run :=
  lazymatch goal with
  | |- Parser.factor _ _ = _ =>
      first [ eapply factor_number; [reflexivity|eassumption]
            | eapply factor_identifier; reflexivity
            | eapply factor_paren; [reflexivity| |] ]
  | |- type _ = _ => reflexivity
  | _ => parser_step
  end.

Lemma parse_returns_assignments_witness :
  exists r self',
    Parser.parse
      (Parser.init [ {| type := "IDENTIFIER"; value := "x" |};
                     {| type := "ASSIGN"; value := "=" |};
                     {| type := "NUMBER"; value := "1" |} ])
    = Some (r, self')
    /\ Parser.tokens self'
       = [ {| type := "IDENTIFIER"; value := "x" |};
           {| type := "ASSIGN"; value := "=" |};
           {| type := "NUMBER"; value := "1" |} ]
    /\ forall l, r = Ok l ->
         Forall (fun node => statement node = true) l
         /\ type (Parser.peek self') = "EOF".
Proof.
  exact (parse_returns_assignments
           [ {| type := "IDENTIFIER"; value := "x" |};
             {| type := "ASSIGN"; value := "=" |};
             {| type := "NUMBER"; value := "1" |} ]).
Defined.

(** X6: parentheses group. For any three numbers, a sum or difference in
    parentheses followed by [*] or [/] is parsed as the left operand of
    the product, and one preceded by [*] or [/] as its right operand;
    [x = (2 + 3) * 4] binds [x] to 20. *)
Theorem parentheses_group :
  (forall (plus times : bool) x a b c o1 o2 na nb nc,
     Py.int a = Some na -> Py.int b = Some nb -> Py.int c = Some nc ->
     let additive :=
       {| type := if plus then "PLUS" else "MINUS"; value := o1 |} in
     let multiplicative :=
       {| type := if times then "MULTIPLY" else "DIVIDE"; value := o2 |} in
     let target := {| type := "IDENTIFIER"; value := x |} in
     let assign := {| type := "ASSIGN"; value := "=" |} in
     let lparen := {| type := "LPAREN"; value := "(" |} in
     let rparen := {| type := "RPAREN"; value := ")" |} in
     let number v := {| type := "NUMBER"; value := v |} in
     (exists self',
        Parser.parse
          (Parser.init [target; assign; lparen; number a; additive; number b;
                        rparen; multiplicative; number c])
        = Some (Ok [Assign (Identifier x)
                      (BinOp (BinOp (Number na) o1 (Number nb)) o2
                         (Number nc))], self'))
     /\ (exists self',
           Parser.parse
             (Parser.init [target; assign; number a; multiplicative; lparen;
                           number b; additive; number c; rparen])
           = Some (Ok [Assign (Identifier x)
                         (BinOp (Number na) o2
                            (BinOp (Number nb) o1 (Number nc)))], self')))
  /\ (exists out,
        main "x = (2 + 3) * 4" = Some (Ok out)
        /\ out_ast out
           = [Assign (Identifier "x")
                (BinOp (BinOp (Number 2) "+" (Number 3)) "*" (Number 4))]
        /\ out_results out = [VInt 20]
        /\ out_variables out = {[ "x" := VInt 20 ]}).
Proof.
  split.
  - intros plus times x a b c o1 o2 na nb nc Ha Hb Hc. cbv zeta.
    assert (Number_init a = Ok (Number na)) as Ha'
      by (unfold Number_init; by rewrite Ha).
    assert (Number_init b = Ok (Number nb)) as Hb'
      by (unfold Number_init; by rewrite Hb).
    assert (Number_init c = Ok (Number nc)) as Hc'
      by (unfold Number_init; by rewrite Hc).
    unfold Parser.parse, Parser.parse_from.
    destruct plus, times; split; eexists;
      change (Parser.fuel_for _) with 42; repeat parser_run.
  - eexists. split; [vm_compute; reflexivity|].
    repeat split; vm_compute; reflexivity.
Qed.

Lemma parentheses_group_witness :
  exists self',
    Parser.parse
      (Parser.init [ {| type := "IDENTIFIER"; value := "x" |};
                     {| type := "ASSIGN"; value := "=" |};
                     {| type := "LPAREN"; value := "(" |};
                     {| type := "NUMBER"; value := "2" |};
                     {| type := "MINUS"; value := "-" |};
                     {| type := "NUMBER"; value := "3" |};
                     {| type := "RPAREN"; value := ")" |};
                     {| type := "DIVIDE"; value := "/" |};
                     {| type := "NUMBER"; value := "4" |} ])
    = Some (Ok [Assign (Identifier "x")
                  (BinOp (BinOp (Number 2) "-" (Number 3)) "/"
                     (Number 4))], self').
Proof.
  exact (proj1 (proj1 parentheses_group false false
                  "x" "2" "3" "4" "-" "/" 2%Z 3%Z 4%Z
                  eq_refl eq_refl eq_refl)).
Defined.

(** X7: operators of one level group to the left. For any three numbers,
    [a op b op' c] with [op], [op'] both among [+], [-] or both among [*],
    [/] is parsed as [(a op b) op' c]; so [x = 10 - 3 - 2] binds [x] to 5
    and [x = 8 / 4 / 2] binds it to 1.0. *)
Theorem operators_associate_left :
  (forall (additive first second : bool) x a b c o1 o2 na nb nc,
     Py.int a = Some na -> Py.int b = Some nb -> Py.int c = Some nc ->
     let operator (which : bool) v :=
       {| type := if additive then (if which then "PLUS" else "MINUS")
                  else (if which then "MULTIPLY" else "DIVIDE");
          value := v |} in
     let target := {| type := "IDENTIFIER"; value := x |} in
     let assign := {| type := "ASSIGN"; value := "=" |} in
     let number v := {| type := "NUMBER"; value := v |} in
     exists self',
       Parser.parse
         (Parser.init [target; assign; number a; operator first o1; number b;
                       operator second o2; number c])
       = Some (Ok [Assign (Identifier x)
                     (BinOp (BinOp (Number na) o1 (Number nb)) o2
                        (Number nc))], self'))
  /\ (exists out,
        main "x = 10 - 3 - 2" = Some (Ok out)
        /\ out_variables out = {[ "x" := VInt 5 ]})
  /\ (exists out,
        main "x = 8 / 4 / 2" = Some (Ok out)
        /\ out_variables out = {[ "x" := VFloat 1 ]}).
Proof.
  split; [|split].
  - intros additive first second x a b c o1 o2 na nb nc Ha Hb Hc. cbv zeta.
    assert (Number_init a = Ok (Number na)) as Ha'
      by (unfold Number_init; by rewrite Ha).
    assert (Number_init b = Ok (Number nb)) as Hb'
      by (unfold Number_init; by rewrite Hb).
    assert (Number_init c = Ok (Number nc)) as Hc'
      by (unfold Number_init; by rewrite Hc).
    unfold Parser.parse, Parser.parse_from.
    destruct additive, first, second; eexists;
      change (Parser.fuel_for _) with 34; repeat parser_run.
  - eexists. split; vm_compute; reflexivity.
  - eexists. split; vm_compute; reflexivity.
Qed.

Lemma operators_associate_left_witness :
  exists self',
    Parser.parse
      (Parser.init [ {| type := "IDENTIFIER"; value := "x" |};
                     {| type := "ASSIGN"; value := "=" |};
                     {| type := "NUMBER"; value := "10" |};
                     {| type := "MINUS"; value := "-" |};
                     {| type := "NUMBER"; value := "3" |};
                     {| type := "PLUS"; value := "+" |};
                     {| type := "NUMBER"; value := "2" |} ])
    = Some (Ok [Assign (Identifier "x")
                  (BinOp (BinOp (Number 10) "-" (Number 3)) "+"
                     (Number 2))], self').
Proof.
  exact (proj1 operators_associate_left true false true
           "x" "10" "3" "2" "-" "+" 10%Z 3%Z 2%Z eq_refl eq_refl eq_refl).
Defined.

Section ParserErrors.

Import Parser.

Local Arguments is_in : simpl never.
Local Arguments advance : simpl never.
Local Arguments peek : simpl never.

Lemma parse_from_unexpected statements self :
  type (peek self) = "IDENTIFIER" ->
  type (peek (advance self)) = "ASSIGN" ->
  is_in (type (peek (advance (advance self))))
    ["NUMBER"; "IDENTIFIER"; "LPAREN"] = false ->
  parse_from statements self
  = Some (Raise (SyntaxError
                   ("Unexpected token: "
                    +:+ Token_repr (peek (advance (advance self))))),
          advance (advance self)).
Proof.
  intros I A F. unfold parse_from, fuel_for.
  replace (4 * remaining self + 6)
    with (S (S (S (S (4 * remaining self + 2))))) by lia.
  apply parse_loop_raises; [by rewrite I..|].
  apply assignment_raises; [done..|].
  by apply expr_raises, term_raises, factor_unexpected.
Qed.

Lemma parse_from_unclosed statements self node :
  type (peek self) = "IDENTIFIER" ->
  type (peek (advance self)) = "ASSIGN" ->
  type (peek (advance (advance self))) = "LPAREN" ->
  type (peek (advance (advance (advance self)))) = "NUMBER" ->
  Number_init (value (peek (advance (advance (advance self))))) = Ok node ->
  is_in (type (peek (advance (advance (advance (advance self))))))
    ["MULTIPLY"; "DIVIDE"; "PLUS"; "MINUS"; "RPAREN"] = false ->
  parse_from statements self
  = Some (Raise (SyntaxError
                   ("Expected RPAREN, got "
                    +:+ type (peek (advance (advance (advance
                                                 (advance self))))))),
          advance (advance (advance (advance self)))).
Proof.
  intros I A L N Hn F. unfold parse_from, fuel_for.
  assert (pos self < length (tokens self))
    by (apply peek_real; by rewrite I).
  replace (4 * remaining self + 6)
    with (S (S (S (S (S (S (S (4 * remaining self - 1))))))))
    by (unfold remaining; lia).
  unfold is_in in F. simpl in F. rewrite orb_false_r in F.
  apply orb_false_iff in F as [F1 F].
  apply orb_false_iff in F as [F2 F].
  apply orb_false_iff in F as [F3 F].
  apply orb_false_iff in F as [F4 F5].
  apply parse_loop_raises; [by rewrite I..|].
  apply assignment_raises; [done..|].
  apply expr_raises, term_raises.
  eapply factor_unclosed; [done| |done].
  eapply expr_run; [eapply term_run; [by eapply factor_number|]|].
  - apply term_loop_done. unfold is_in. simpl. by rewrite F1, F2.
  - apply expr_loop_done. unfold is_in. simpl. by rewrite F3, F4.
Qed.

End ParserErrors.

Section ParserErrorRuns.

Import Parser.

Lemma peek_behind texts toks k :
  peek {| tokens := newlines texts ++ toks; pos := length texts + k |}
  = peek {| tokens := toks; pos := k |}.
Proof. rewrite <- (length_newlines texts). apply peek_shift. Qed.

Lemma advance_behind texts toks k :
  advance {| tokens := newlines texts ++ toks; pos := length texts + k |}
  = {| tokens := newlines texts ++ toks; pos := length texts + S k |}.
Proof. unfold advance. simpl. f_equal. lia. Qed.

End ParserErrorRuns.

(** X8: an assignment without a right-hand side is refused. After a name
    and [=], a token that is no number, no name and no opening
    parenthesis, or the end of the tokens, raises [SyntaxError] with the
    [repr] of that token; so there is no unary minus: [x = -1] is
    refused at the [-]. *)
Theorem parse_rejects_missing_operand :
  (forall texts x eq rest,
     Parser.is_in (type (Parser.peek (Parser.init rest)))
       ["NUMBER"; "IDENTIFIER"; "LPAREN"] = false ->
     Parser.parse
       (Parser.init (newlines texts
                     ++ {| type := "IDENTIFIER"; value := x |}
                     :: {| type := "ASSIGN"; value := eq |} :: rest))
     = Some (Raise (SyntaxError
                      ("Unexpected token: "
                       +:+ Token_repr (Parser.peek (Parser.init rest)))),
             {| Parser.tokens :=
                  newlines texts
                  ++ {| type := "IDENTIFIER"; value := x |}
                  :: {| type := "ASSIGN"; value := eq |} :: rest;
                Parser.pos := length texts + 2 |}))
  /\ main "x = -1"
     = Some (Raise (SyntaxError "Unexpected token: Token(MINUS, '-')"))
  /\ main "x ="
     = Some (Raise (SyntaxError "Unexpected token: Token(EOF, '')")).
Proof.
  split; [|split; vm_compute; reflexivity].
  intros texts x eq rest H.
  unfold Parser.parse, Parser.init.
  etrans; [exact (parse_from_newlines texts [] [] _)|].
  cbn [app length Nat.add].
  rewrite <- (Nat.add_0_r (length texts)) at 1.
  rewrite parse_from_unexpected;
    rewrite ?advance_behind, ?peek_behind; try done.
Qed.

Lemma parse_rejects_missing_operand_witness :
  Parser.parse
    (Parser.init (newlines []
                  ++ {| type := "IDENTIFIER"; value := "x" |}
                  :: {| type := "ASSIGN"; value := "=" |}
                  :: [{| type := "RPAREN"; value := ")" |}]))
  = Some (Raise (SyntaxError
                   ("Unexpected token: "
                    +:+ Token_repr
                          (Parser.peek
                             (Parser.init
                                [{| type := "RPAREN"; value := ")" |}])))),
          {| Parser.tokens :=
               newlines []
               ++ {| type := "IDENTIFIER"; value := "x" |}
               :: {| type := "ASSIGN"; value := "=" |}
               :: [{| type := "RPAREN"; value := ")" |}];
             Parser.pos := length ([] : list string) + 2 |}).
Proof.
  exact (proj1 parse_rejects_missing_operand [] "x" "="
           [{| type := "RPAREN"; value := ")" |}] eq_refl).
Defined.

(** X9: a parenthesis that is not closed is refused. After a name, [=],
    an opening parenthesis and a number, a token that is neither an
    operator nor the closing parenthesis, or the end of the tokens,
    raises [SyntaxError] telling that RPAREN was expected and the type
    found. *)
Theorem parse_rejects_unclosed_parenthesis :
  (forall texts x eq open a na rest,
     Py.int a = Some na ->
     Parser.is_in (type (Parser.peek (Parser.init rest)))
       ["MULTIPLY"; "DIVIDE"; "PLUS"; "MINUS"; "RPAREN"] = false ->
     Parser.parse
       (Parser.init (newlines texts
                     ++ {| type := "IDENTIFIER"; value := x |}
                     :: {| type := "ASSIGN"; value := eq |}
                     :: {| type := "LPAREN"; value := open |}
                     :: {| type := "NUMBER"; value := a |} :: rest))
     = Some (Raise (SyntaxError
                      ("Expected RPAREN, got "
                       +:+ type (Parser.peek (Parser.init rest)))),
             {| Parser.tokens :=
                  newlines texts
                  ++ {| type := "IDENTIFIER"; value := x |}
                  :: {| type := "ASSIGN"; value := eq |}
                  :: {| type := "LPAREN"; value := open |}
                  :: {| type := "NUMBER"; value := a |} :: rest;
                Parser.pos := length texts + 4 |}))
  /\ main "x = (1"
     = Some (Raise (SyntaxError "Expected RPAREN, got EOF")).
Proof.
  split; [|vm_compute; reflexivity].
  intros texts x eq open a na rest Ha H.
  unfold Parser.parse, Parser.init.
  etrans; [exact (parse_from_newlines texts [] [] _)|].
  cbn [app length Nat.add].
  rewrite <- (Nat.add_0_r (length texts)) at 1.
  erewrite parse_from_unclosed;
    rewrite ?advance_behind, ?peek_behind; try done.
  unfold Parser.peek. simpl. unfold Number_init. by rewrite Ha.
Qed.

Lemma parse_rejects_unclosed_parenthesis_witness :
  Parser.parse
    (Parser.init (newlines []
                  ++ {| type := "IDENTIFIER"; value := "x" |}
                  :: {| type := "ASSIGN"; value := "=" |}
                  :: {| type := "LPAREN"; value := "(" |}
                  :: {| type := "NUMBER"; value := "1" |}
                  :: [{| type := "NUMBER"; value := "2" |}]))
  = Some (Raise (SyntaxError
                   ("Expected RPAREN, got "
                    +:+ type (Parser.peek
                                (Parser.init
                                   [{| type := "NUMBER"; value := "2" |}])))),
          {| Parser.tokens :=
               newlines []
               ++ {| type := "IDENTIFIER"; value := "x" |}
               :: {| type := "ASSIGN"; value := "=" |}
               :: {| type := "LPAREN"; value := "(" |}
               :: {| type := "NUMBER"; value := "1" |}
               :: [{| type := "NUMBER"; value := "2" |}];
             Parser.pos := length ([] : list string) + 4 |}).
Proof.
  exact (proj1 parse_rejects_unclosed_parenthesis [] "x" "=" "(" "1" 1%Z
           [{| type := "NUMBER"; value := "2" |}] eq_refl eq_refl).
Defined.

Section MoreInterpreter.

Import Interpreter.

(** Evaluating a tree without assignments leaves the interpreter as it
    was. *)
Lemma evaluate_pure node : forall self,
  assign_free node -> snd (evaluate node self) = self.
Proof.
  intros self H. pose proof (evaluate_assign_free node self H) as E.
  destruct (evaluate node self) as [[v|e] s]; simpl; by destruct E.
Qed.

Lemma evaluate_coincide node : forall self1 self2,
  assign_free node ->
  (forall name, name ∈ names node ->
     variables self1 !! name = variables self2 !! name) ->
  fst (evaluate node self1) = fst (evaluate node self2).
Proof.
  induction node as [n|name|l IHl op r IHr|i _ e _]; intros self1 self2;
    simpl; [done| | |done].
  - intros _ H. rewrite (H name) by (apply list_elem_of_singleton; done).
    by destruct (variables self2 !! name).
  - intros [Hl Hr]%andb_True H.
    pose proof (evaluate_pure l self1 Hl) as P1.
    pose proof (evaluate_pure l self2 Hl) as P2.
    specialize (IHl self1 self2 Hl).
    destruct (evaluate l self1) as [r1 s1], (evaluate l self2) as [r2 s2].
    simpl in *. subst s1 s2.
    rewrite <- IHl by (intros; apply H, elem_of_app; by left).
    destruct r1 as [vl|el]; [|done].
    pose proof (evaluate_pure r self1 Hr) as P1.
    pose proof (evaluate_pure r self2 Hr) as P2.
    specialize (IHr self1 self2 Hr).
    destruct (evaluate r self1) as [q1 t1], (evaluate r self2) as [q2 t2].
    simpl in *. subst t1 t2.
    rewrite <- IHr by (intros; apply H, elem_of_app; by right).
    by destruct q1.
Qed.

End MoreInterpreter.

(** X10: an expression reads, and only reads. Evaluating a tree of
    numbers, names and operators never changes the variables, and its
    outcome, value or exception, is the same under any two sets of
    variables that agree on the names the tree reads. *)
Theorem evaluate_reads_only_its_names node self1 self2 :
  assign_free node ->
  (forall name, name ∈ Interpreter.names node ->
     Interpreter.variables self1 !! name
     = Interpreter.variables self2 !! name) ->
  snd (Interpreter.evaluate node self1) = self1
  /\ fst (Interpreter.evaluate node self1)
     = fst (Interpreter.evaluate node self2).
Proof.
  intros H1 H2. split; [by apply evaluate_pure|by apply evaluate_coincide].
Qed.

Lemma evaluate_reads_only_its_names_witness :
  snd (Interpreter.evaluate (BinOp (Identifier "x") "+" (Number 1))
         {| Interpreter.variables := {[ "x" := VInt 2; "y" := VInt 3 ]} |})
  = {| Interpreter.variables := {[ "x" := VInt 2; "y" := VInt 3 ]} |}
  /\ fst (Interpreter.evaluate (BinOp (Identifier "x") "+" (Number 1))
            {| Interpreter.variables :=
                 {[ "x" := VInt 2; "y" := VInt 3 ]} |})
     = fst (Interpreter.evaluate (BinOp (Identifier "x") "+" (Number 1))
              {| Interpreter.variables := {[ "x" := VInt 2 ]} |}).
Proof.
  apply (evaluate_reads_only_its_names
           (BinOp (Identifier "x") "+" (Number 1))
           {| Interpreter.variables := {[ "x" := VInt 2; "y" := VInt 3 ]} |}
           {| Interpreter.variables := {[ "x" := VInt 2 ]} |}).
  - exact I.
  - intros name Hn. simpl in Hn.
    apply list_elem_of_In in Hn. simpl in Hn.
    destruct Hn as [<-|[]]. vm_compute. reflexivity.
Defined.

(** X11: an assignment touches its target only. Whatever the outcome of
    evaluating an assignment of an expression to [name], every other
    name keeps the value, or the absence of a value, it had; and when
    the evaluation raises, nothing at all has changed. *)
Theorem assignment_touches_only_target name e self :
  assign_free e ->
  (forall other, other <> name ->
     Interpreter.variables
       (snd (Interpreter.evaluate (Assign (Identifier name) e) self))
       !! other
     = Interpreter.variables self !! other)
  /\ (forall err,
        fst (Interpreter.evaluate (Assign (Identifier name) e) self)
        = Raise err ->
        snd (Interpreter.evaluate (Assign (Identifier name) e) self) = self).
Proof.
  intros He. pose proof (evaluate_pure e self He) as P. simpl.
  destruct (Interpreter.evaluate e self) as [[v|err] s]; simpl in *; subst s.
  - split; [|done]. intros other Ho. by apply lookup_insert_ne.
  - split; done.
Qed.

Lemma assignment_touches_only_target_witness :
  (forall other, other <> "x" ->
     Interpreter.variables
       (snd (Interpreter.evaluate
               (Assign (Identifier "x") (BinOp (Identifier "y") "*" (Number 2)))
               {| Interpreter.variables := {[ "y" := VInt 3 ]} |}))
       !! other
     = Interpreter.variables
         {| Interpreter.variables := {[ "y" := VInt 3 ]} |} !! other)
  /\ (forall err,
        fst (Interpreter.evaluate
               (Assign (Identifier "x") (BinOp (Identifier "y") "*" (Number 2)))
               {| Interpreter.variables := {[ "y" := VInt 3 ]} |})
        = Raise err ->
        snd (Interpreter.evaluate
               (Assign (Identifier "x") (BinOp (Identifier "y") "*" (Number 2)))
               {| Interpreter.variables := {[ "y" := VInt 3 ]} |})
        = {| Interpreter.variables := {[ "y" := VInt 3 ]} |}).
Proof.
  exact (assignment_touches_only_target "x"
           (BinOp (Identifier "y") "*" (Number 2))
           {| Interpreter.variables := {[ "y" := VInt 3 ]} |} I).
Defined.

(** X12: [+], [-] and [*] on integers are exact. A tree built from
    numbers, names bound to integers and these three operators evaluates
    to the [int] that integer arithmetic gives, of any size, without an
    exception and without a change of the variables, as long as the
    run-time admits as many nested calls as the tree is deep; with fewer
    the evaluation ends in [RecursionError], the variables unchanged. *)
Theorem integer_arithmetic_is_exact ints node z frames :
  integer ints node = Some z ->
  (Interpreter.height node <= frames ->
   Interpreter.evaluate_within frames node
     {| Interpreter.variables := VInt <$> ints |}
   = (Ok (VInt z), {| Interpreter.variables := VInt <$> ints |}))
  /\ (frames < Interpreter.height node ->
      Interpreter.evaluate_within frames node
        {| Interpreter.variables := VInt <$> ints |}
      = (Raise RecursionError, {| Interpreter.variables := VInt <$> ints |})).
Proof.
  revert z frames.
  induction node as [n|name|l IHl op r IHr|i _ e _]; intros z [|frames];
    simpl; try done; try (intros _; split; [lia|done]).
  - intros [= <-]. split; [done|lia].
  - intros H. rewrite lookup_fmap, H. split; [done|lia].
  - destruct (integer ints l) as [a|]; [|done].
    destruct (integer ints r) as [b|]; [|done].
    destruct (IHl a frames eq_refl) as [Hl1 Hl2].
    destruct (IHr b frames eq_refl) as [Hr1 Hr2].
    intros Hz. split; intros Hh.
    + rewrite Hl1, Hr1 by lia. revert Hz.
      repeat (destruct (String.eqb op _); [by intros [= <-]|]). done.
    + destruct (decide (Interpreter.height l <= frames)) as [Hle|Hgt].
      * rewrite Hl1 by done. rewrite Hr2 by lia. done.
      * rewrite Hl2 by lia. done.
Qed.

Lemma integer_arithmetic_is_exact_witness :
  Interpreter.evaluate_within 3
    (BinOp (Identifier "x") "*" (BinOp (Number 3) "-" (Number 5)))
    {| Interpreter.variables := VInt <$> {[ "x" := 7%Z ]} |}
  = (Ok (VInt (-14)),
     {| Interpreter.variables := VInt <$> {[ "x" := 7%Z ]} |})
  /\ Interpreter.evaluate_within 2
       (BinOp (Identifier "x") "*" (BinOp (Number 3) "-" (Number 5)))
       {| Interpreter.variables := VInt <$> {[ "x" := 7%Z ]} |}
     = (Raise RecursionError,
        {| Interpreter.variables := VInt <$> {[ "x" := 7%Z ]} |}).
Proof.
  split.
  - refine (proj1 (integer_arithmetic_is_exact {[ "x" := 7%Z ]}
              (BinOp (Identifier "x") "*" (BinOp (Number 3) "-" (Number 5)))
              (-14)%Z 3 _) _).
    + vm_compute. reflexivity.
    + simpl. lia.
  - refine (proj2 (integer_arithmetic_is_exact {[ "x" := 7%Z ]}
              (BinOp (Identifier "x") "*" (BinOp (Number 3) "-" (Number 5)))
              (-14)%Z 2 _) _).
    + vm_compute. reflexivity.
    + simpl. lia.
Defined.

(** X13: division by zero aborts the assignment. When the right operand
    of [/] evaluates to the integer 0 and the left one to an [int] or a
    [float], the assignment raises [ZeroDivisionError] and the variables
    stay as the operands left them, the target without a new value; so
    does a right operand that is a [float] zero under a [float] left
    operand. *)
Theorem division_by_zero_raises :
  (forall target l r self vl s1 s2,
     Interpreter.evaluate l self = (Ok vl, s1) ->
     Interpreter.evaluate r s1 = (Ok (VInt 0), s2) ->
     vl <> VNone ->
     Interpreter.evaluate (Assign (Identifier target) (BinOp l "/" r)) self
     = (Raise ZeroDivisionError, s2))
  /\ (forall x y,
        PrimFloat.eqb y PrimFloat.zero = true ->
        Interpreter.truediv (VFloat x) (VFloat y) = Raise ZeroDivisionError)
  /\ main "x = 1 / 0" = Some (Raise ZeroDivisionError)
  /\ main "x = 1 / (0 / 5)" = Some (Raise ZeroDivisionError).
Proof.
  split; [|split; [|split; vm_compute; reflexivity]].
  - intros target l r self vl s1 s2 El Er Hv. simpl. rewrite El, Er.
    destruct vl as [a|x|]; [done| |done]. simpl.
    unfold Interpreter.floats. simpl. done.
  - intros x y Hy. simpl. unfold Interpreter.floats. simpl. by rewrite Hy.
Qed.

Lemma division_by_zero_raises_witness :
  Interpreter.evaluate
    (Assign (Identifier "x")
       (BinOp (Number 1) "/" (BinOp (Number 2) "-" (Number 2))))
    Interpreter.init
  = (Raise ZeroDivisionError, Interpreter.init).
Proof.
  apply (proj1 division_by_zero_raises "x" (Number 1)
           (BinOp (Number 2) "-" (Number 2))
           Interpreter.init (VInt 1) Interpreter.init Interpreter.init
           eq_refl eq_refl).
  discriminate.
Defined.

(** X14: running a list of statements is running its first part and then
    the rest on the variables the first part left: the results are put
    end to end, and an exception of the first part ends the run with the
    variables as they were at that point. *)
Theorem run_composes first rest self :
  Interpreter.run (first ++ rest) self
  = match Interpreter.run first self with
    | (Ok vs, self') =>
        match Interpreter.run rest self' with
        | (Ok ws, self'') => (Ok (vs ++ ws), self'')
        | (Raise e, self'') => (Raise e, self'')
        end
    | (Raise e, self') => (Raise e, self')
    end.
Proof.
  revert self. induction first as [|node first IH]; intros self; simpl.
  - by destruct (Interpreter.run rest self) as [[ws|e] s].
  - destruct (Interpreter.evaluate node self) as [[v|e] s1]; [|done].
    rewrite IH.
    destruct (Interpreter.run first s1) as [[vs|e] s2]; [|done].
    by destruct (Interpreter.run rest s2) as [[ws|e] s3].
Qed.

Section WellLexed.

Lemma fullmatch_chr c s :
  fullmatch (Re.One (Re.Chr c)) s = true -> s = [c].
Proof.
  unfold fullmatch. destruct s as [|a [|b s]]; simpl; try done.
  - destruct (Ascii.eqb_spec a c) as [->|]; done.
  - by destruct (Ascii.eqb a c).
Qed.

Lemma text_value tok s : text tok = s -> value tok = String.string_of_list_ascii s.
Proof.
  unfold text. intros <-. by rewrite String.string_of_list_ascii_of_string.
Qed.

Lemma emitted_well_lexed tok : emitted_by TOKEN_TYPES tok -> well_lexed tok.
Proof.
  intros H. split; [by apply emitted_number|].
  destruct H as (_ & r & Hr & Hm). unfold TOKEN_TYPES in Hr.
  destruct tok as [ty v]. simpl in *. intros op.
  repeat (apply elem_of_cons in Hr as [Hr|Hr];
          [injection Hr as -> ->; try done;
           intros [= <-]; by apply fullmatch_chr, text_value in Hm|]).
  by apply elem_of_nil in Hr.
Qed.

End WellLexed.

Section ParserSound.

Import Parser.

Local Arguments is_in : simpl never.

Lemma sound_ret {A} (a : A) self (Q : result A -> t -> Prop) :
  Q (Ok a) self -> sound (ret a) self Q.
Proof. intros HQ r s [= <- <-]. done. Qed.

Lemma sound_raise {A} e self (Q : result A -> t -> Prop) :
  Q (Raise e) self -> sound (raise e) self Q.
Proof. intros HQ r s [= <- <-]. done. Qed.

Lemma sound_lift {A} (x : result A) self (Q : result A -> t -> Prop) :
  Q x self -> sound (lift x) self Q.
Proof. intros HQ r s [= <- <-]. done. Qed.

Lemma sound_bind {A B} (m : M A) (f : A -> M B) self
    (Q : result B -> t -> Prop) :
  sound m self (fun r s =>
    match r with
    | Ok a => sound (f a) s Q
    | Raise e => Q (Raise e) s
    end) ->
  sound (bind m f) self Q.
Proof.
  intros H r s. unfold bind.
  destruct (m self) as [[[a|e] s1]|] eqn:E; [| |done].
  - apply (H _ _ E).
  - intros [= <- <-]. apply (H _ _ E).
Qed.

Lemma sound_current_token self (Q : result Token -> t -> Prop) :
  Q (Ok (peek self)) self -> sound current_token self Q.
Proof. intros HQ r s [= <- <-]. done. Qed.

Lemma sound_consume ty self (Q : result unit -> t -> Prop) :
  (type (peek self) = ty -> Q (Ok tt) (advance self)) ->
  (forall msg, Q (Raise (SyntaxError msg)) self) ->
  sound (consume ty) self Q.
Proof.
  intros Hok Herr. unfold consume. apply sound_bind, sound_current_token.
  destruct (String.eqb_spec (type (peek self)) ty) as [E|E].
  - intros r s [= <- <-]. auto.
  - by apply sound_raise.
Qed.

Lemma sound_conseq {A} (m : M A) self (Q Q' : result A -> t -> Prop) :
  sound m self Q -> (forall r s, Q r s -> Q' r s) -> sound m self Q'.
Proof. intros H HQ r s E. apply HQ, (H _ _ E). Qed.

Lemma peek_in self :
  type (peek self) <> "EOF" -> peek self ∈ tokens self.
Proof.
  unfold peek. destruct (tokens self !! pos self) eqn:E; [|done].
  intros _. by eapply list_elem_of_lookup_2.
Qed.

Lemma peek_well_lexed self :
  Forall well_lexed (tokens self) -> type (peek self) <> "EOF" ->
  well_lexed (peek self).
Proof.
  intros H E. rewrite Forall_forall in H. by apply H, peek_in.
Qed.

Lemma operator_text tok l :
  well_lexed tok -> is_in (type tok) l = true ->
  l = ["MULTIPLY"; "DIVIDE"] \/ l = ["PLUS"; "MINUS"] ->
  is_in (value tok) ["+"; "-"; "*"; "/"] = true.
Proof.
  intros [_ H] Hin Hl. unfold is_in in Hin.
  destruct Hl as [-> | ->]; simpl in Hin; rewrite orb_false_r in Hin;
    apply orb_true_iff in Hin as [E|E]; apply String.eqb_eq in E;
    (assert (exists op, operator_of (type tok) = Some op
                        /\ is_in op ["+"; "-"; "*"; "/"] = true)
       as (op & Ho & Hop) by (rewrite E; eexists; split; reflexivity));
    by rewrite (H _ Ho).
Qed.

Lemma good_trans self s1 r s2 :
  tokens s1 = tokens self -> good s1 r s2 -> good self r s2.
Proof.
  intros H [H1 H2]. split; [congruence|].
  destruct r; [done|]. by rewrite <- H.
Qed.

Lemma expr_sound fuel :
  (forall self, Forall well_lexed (tokens self) ->
     sound (factor fuel) self (good self))
  /\ (forall node self, expression node = true ->
      Forall well_lexed (tokens self) ->
      sound (term_loop fuel node) self (good self))
  /\ (forall self, Forall well_lexed (tokens self) ->
      sound (term fuel) self (good self))
  /\ (forall node self, expression node = true ->
      Forall well_lexed (tokens self) ->
      sound (expr_loop fuel node) self (good self))
  /\ (forall self, Forall well_lexed (tokens self) ->
      sound (expr fuel) self (good self)).
Proof.
  induction fuel as [|fuel (IHf & IHtl & IHt & IHel & IHe)].
  { split; [|split; [|split; [|split]]]; unfold sound; by intros. }
  split; [|split; [|split; [|split]]].
  - (* factor *)
    intros self Hw. simpl.
    apply sound_bind, sound_current_token.
    destruct (String.eqb_spec (type (peek self)) "NUMBER") as [E|_].
    { apply sound_bind, sound_consume; [intros _|by (split; [|left])].
      apply sound_lift. split; [done|].
      destruct (peek_well_lexed self Hw) as [Hn _]; [by rewrite E|].
      rewrite (Number_init_digits _ (Hn E)).
      destruct (Py.int_max_str_digits <? _) eqn:L; [|done].
      right. exists (peek self). split; [apply peek_in; by rewrite E|].
      split; [done|]. split; [by apply Nat.ltb_lt|done]. }
    destruct (String.eqb_spec (type (peek self)) "IDENTIFIER") as [E|_].
    { apply sound_bind, sound_consume; [intros _|by (split; [|left])].
      by apply sound_ret. }
    destruct (String.eqb_spec (type (peek self)) "LPAREN") as [E|_];
      [|by (apply sound_raise; split; [|left])].
    apply sound_bind, sound_consume; [intros _|by (split; [|left])].
    apply sound_bind. eapply sound_conseq; [by apply IHe|].
    intros r s [Ht HP]. simpl in Ht. destruct r as [node|e]; [|by split].
    apply sound_bind, sound_consume; [intros _|intros; by (split; [|left])].
    apply sound_ret. by split.
  - (* term_loop *)
    intros node self Hn Hw. simpl.
    apply sound_bind, sound_current_token.
    destruct (is_in (type (peek self)) ["MULTIPLY"; "DIVIDE"]) eqn:E;
      [|by apply sound_ret].
    pose proof (is_in_real _ _ E eq_refl) as Hreal.
    apply sound_bind, sound_consume; [intros _|by (split; [|left])].
    apply sound_bind. eapply sound_conseq; [by apply IHf|].
    intros r s [Ht HP]. simpl in Ht. destruct r as [rhs|e]; [|by split].
    eapply sound_conseq; [apply IHtl; [|by rewrite Ht]|].
    + simpl. rewrite Hn, HP.
      erewrite operator_text; eauto using peek_well_lexed.
    + intros r' s'. by apply good_trans.
  - (* term *)
    intros self Hw. simpl.
    apply sound_bind. eapply sound_conseq; [by apply IHf|].
    intros r s [Ht HP]. destruct r as [node|e]; [|by split].
    eapply sound_conseq; [apply IHtl; [done|by rewrite Ht]|].
    intros r' s'. by apply good_trans.
  - (* expr_loop *)
    intros node self Hn Hw. simpl.
    apply sound_bind, sound_current_token.
    destruct (is_in (type (peek self)) ["PLUS"; "MINUS"]) eqn:E;
      [|by apply sound_ret].
    pose proof (is_in_real _ _ E eq_refl) as Hreal.
    apply sound_bind, sound_consume; [intros _|by (split; [|left])].
    apply sound_bind. eapply sound_conseq; [by apply IHt|].
    intros r s [Ht HP]. simpl in Ht. destruct r as [rhs|e]; [|by split].
    eapply sound_conseq; [apply IHel; [|by rewrite Ht]|].
    + simpl. rewrite Hn, HP.
      erewrite operator_text; eauto using peek_well_lexed.
    + intros r' s'. by apply good_trans.
  - (* expr *)
    intros self Hw. simpl.
    apply sound_bind. eapply sound_conseq; [by apply IHt|].
    intros r s [Ht HP]. destruct r as [node|e]; [|by split].
    eapply sound_conseq; [apply IHel; [done|by rewrite Ht]|].
    intros r' s'. by apply good_trans.
Qed.

Lemma parse_loop_sound fuel : forall statements self,
  Forall well_lexed (tokens self) ->
  Forall (fun node => assignment_of_expression node = true) statements ->
  sound (parse_loop fuel statements) self (fun r s =>
    match r with
    | Ok l => Forall (fun node => assignment_of_expression node = true) l
    | Raise e => is_syntax_error e = true \/ digit_limit (tokens self) e
    end).
Proof.
  induction fuel as [|fuel IH]; intros statements self Hw Hs;
    [unfold sound; by intros|].
  simpl. apply sound_bind, sound_current_token.
  destruct (String.eqb (type (peek self)) "EOF"); simpl;
    [by apply sound_ret|].
  destruct (String.eqb (type (peek self)) "NEWLINE").
  - apply sound_bind, sound_consume; [intros _|by left].
    by apply (IH statements (advance self)).
  - apply sound_bind. unfold assignment, identifier.
    apply sound_bind, sound_bind, sound_current_token.
    destruct (String.eqb (type (peek self)) "IDENTIFIER");
      [|by (apply sound_raise; left)].
    apply sound_bind, sound_consume; [intros _|by left].
    apply sound_ret, sound_bind, sound_consume; [intros _|by left].
    apply sound_bind.
    eapply sound_conseq; [by apply (proj2 (expr_sound fuel))|].
    intros r s [Ht HP]. simpl in Ht. destruct r as [e|e]; [|done].
    apply sound_ret.
    eapply sound_conseq; [apply IH; [by rewrite Ht|]|].
    + apply Forall_app. split; [done|]. by repeat constructor.
    + intros r' s'. by rewrite Ht.
Qed.

End ParserSound.

Section InterpreterSafe.

Import Interpreter.

Lemma as_float_numeric v :
  v <> VNone ->
  match as_float v with
  | Ok _ => True
  | Raise e => e = OverflowError
  end.
Proof.
  destruct v as [n|f|]; simpl; try done.
  unfold float_of_int, finite. by destruct (binary_normalize _ _ _ _ _).
Qed.

Lemma floats_numeric l r k :
  l <> VNone -> r <> VNone ->
  (forall x y, match k x y with
               | Ok v => v <> VNone
               | Raise e => script_exception e = true
               end) ->
  match floats l r k with
  | Ok v => v <> VNone
  | Raise e => script_exception e = true
  end.
Proof.
  intros Hl Hr Hk. unfold floats.
  pose proof (as_float_numeric l Hl) as Al.
  pose proof (as_float_numeric r Hr) as Ar.
  destruct (as_float l) as [x|e]; [|by subst e].
  destruct (as_float r) as [y|e]; [|by subst e].
  apply Hk.
Qed.

Lemma arith_numeric int_op float_op l r :
  l <> VNone -> r <> VNone ->
  match arith int_op float_op l r with
  | Ok v => v <> VNone
  | Raise e => script_exception e = true
  end.
Proof.
  intros Hl Hr. unfold arith.
  destruct l as [a|x|], r as [b|y|]; try done;
    by apply floats_numeric.
Qed.

Lemma truediv_numeric l r :
  l <> VNone -> r <> VNone ->
  match truediv l r with
  | Ok v => v <> VNone
  | Raise e => script_exception e = true
  end.
Proof.
  intros Hl Hr. unfold truediv.
  destruct l as [a|x|], r as [b|y|]; try done;
    try (apply floats_numeric; [done..|];
         intros ? ?; by destruct (PrimFloat.eqb _ _)).
  unfold int_truediv, finite. destruct (b =? 0)%Z; [done|].
  by destruct (SFdiv _ _ _ _).
Qed.

Lemma evaluate_expression node : forall self,
  expression node = true -> numeric self ->
  match evaluate node self with
  | (Ok v, s) => v <> VNone /\ s = self
  | (Raise e, s) => script_exception e = true /\ s = self
  end.
Proof.
  induction node as [n|name|l IHl op r IHr|i _ e _]; intros self; simpl;
    [done| | |done].
  - intros _ Hn. destruct (variables self !! name) as [v|] eqn:E; [|done].
    split; [by eapply Hn|done].
  - intros [[Hop Hl]%andb_true_iff Hr]%andb_true_iff Hn.
    specialize (IHl self Hl Hn).
    destruct (evaluate l self) as [[vl|el] s1]; [|done].
    destruct IHl as [Hvl ->]. specialize (IHr self Hr Hn).
    destruct (evaluate r self) as [[vr|er] s2]; [|done].
    destruct IHr as [Hvr ->].
    unfold Parser.is_in in Hop. simpl in Hop.
    pose proof (arith_numeric Z.add PrimFloat.add vl vr Hvl Hvr).
    pose proof (arith_numeric Z.sub PrimFloat.sub vl vr Hvl Hvr).
    pose proof (arith_numeric Z.mul PrimFloat.mul vl vr Hvl Hvr).
    pose proof (truediv_numeric vl vr Hvl Hvr).
    destruct (String.eqb op "+");
      [destruct (arith Z.add _ _ _); by split|].
    destruct (String.eqb op "-");
      [destruct (arith Z.sub _ _ _); by split|].
    destruct (String.eqb op "*");
      [destruct (arith Z.mul _ _ _); by split|].
    destruct (String.eqb op "/"); [destruct (truediv _ _); by split|done].
Qed.

Lemma run_safe ast : forall self,
  Forall (fun node => assignment_of_expression node = true) ast ->
  numeric self ->
  match run ast self with
  | (Ok vs, s) => Forall (fun v => v <> VNone) vs /\ numeric s
  | (Raise e, _) => script_exception e = true
  end.
Proof.
  induction ast as [|node ast IH]; intros self; [done|].
  intros [Hs Hast]%Forall_cons_1 Hn. simpl.
  destruct node as [| | |[| name | |] e]; try done. simpl in *.
  pose proof (evaluate_expression e self Hs Hn) as He.
  destruct (evaluate e self) as [[v|err] s1]; [|by destruct He].
  destruct He as [Hv ->].
  match goal with
  | |- context [run ast ?s] =>
      assert (numeric s) as Hn'; [|specialize (IH s Hast Hn');
        destruct (run ast s) as [[vs|err] s2]; [|done]]
  end.
  - intros other w. simpl.
    destruct (decide (name = other)) as [->|Hne].
    + rewrite lookup_insert_eq. by intros [= <-].
    + rewrite lookup_insert_ne by done. apply Hn.
  - destruct IH as [Hvs Hn2]. split; [by constructor|done].
Qed.

End InterpreterSafe.

Section ScriptSafe.

(** What the three stages hand over on a run of the script. *)
Lemma main_stages code :
  exists toks lexer r parser,
    Lexer.tokenize (Lexer.init (String.list_ascii_of_string code))
    = Some (Ok toks, lexer)
    /\ Forall well_lexed toks
    /\ Parser.parse (Parser.init toks) = Some (r, parser)
    /\ match r with
       | Ok ast =>
           Forall (fun node => assignment_of_expression node = true) ast
       | Raise e => is_syntax_error e = true \/ digit_limit toks e
       end.
Proof.
  destruct (tokenize_loop_total _
              (Lexer.init (String.list_ascii_of_string code)) (le_n _))
    as (lexer & E & _).
  destruct (parse_from_total [] (Parser.init (Lexer.tokens lexer)))
    as (r & parser & P & _).
  exists (Lexer.tokens lexer), lexer, r, parser.
  assert (Forall well_lexed (Lexer.tokens lexer)) as Hw.
  { eapply Forall_impl; [|exact emitted_well_lexed].
    eapply tokenize_loop_emitted; [|exact E]. constructor. }
  split; [exact E|]. split; [done|]. split; [exact P|].
  apply (parse_loop_sound _ [] (Parser.init (Lexer.tokens lexer)) Hw
           (Forall_nil_2 _) _ _ P).
Qed.

End ScriptSafe.

(** X15: the failures the script cannot reach. Whatever the source
    text, a run never ends in the [TypeError] of an operand that is
    [None] nor in the [AttributeError] of a target without a name, and
    it ends in a [ValueError] only when the lexer has returned a NUMBER
    token of more than 4300 digits, the exception being that of the
    digit limit of [int]: every operator the parser stores is one of the
    four that [evaluate] knows, every target is a name and every NUMBER
    token is made of digits. *)
Theorem defensive_errors_unreachable code e :
  main code = Some (Raise e) ->
  e <> TypeError /\ e <> AttributeError
  /\ forall msg,
       e = ValueError msg ->
       exists toks lexer,
         Lexer.tokenize (Lexer.init (String.list_ascii_of_string code))
         = Some (Ok toks, lexer)
         /\ digit_limit toks e.
Proof.
  unfold main.
  destruct (main_stages code) as (toks & lexer & r & parser & E & _ & P & H).
  rewrite E, P. destruct r as [ast|err].
  - pose proof (run_safe ast Interpreter.init H) as R.
    destruct (Interpreter.run ast Interpreter.init) as [[vs|err] s]; [done|].
    intros [= <-].
    assert (script_exception err = true) as Hs
      by (apply R; intros name v; simpl; by rewrite lookup_empty).
    by destruct err.
  - intros [= <-]. destruct H as [H|H].
    + by destruct err.
    + split; [|split].
      * by destruct H as (tok & _ & _ & _ & ->).
      * by destruct H as (tok & _ & _ & _ & ->).
      * intros msg _. by exists toks, lexer.
Qed.

Lemma defensive_errors_unreachable_witness :
  NameError "Variable z not defined" <> TypeError
  /\ NameError "Variable z not defined" <> AttributeError
  /\ forall msg,
       NameError "Variable z not defined" = ValueError msg ->
       exists toks lexer,
         Lexer.tokenize (Lexer.init (String.list_ascii_of_string "y = z + 1"))
         = Some (Ok toks, lexer)
         /\ digit_limit toks (NameError "Variable z not defined").
Proof.
  apply (defensive_errors_unreachable "y = z + 1"
           (NameError "Variable z not defined")).
  vm_compute. reflexivity.
Defined.

(** X16: what a run of the script returns. Every statement is an
    assignment of a tree of numbers, names and the four operators to a
    name, and every result and every variable is an [int] or a [float],
    never [None]. *)
Theorem script_values_are_numbers code out :
  main code = Some (Ok out) ->
  Forall (fun node => assignment_of_expression node = true) (out_ast out)
  /\ Forall (fun v => v <> VNone) (out_results out)
  /\ forall name v, out_variables out !! name = Some v -> v <> VNone.
Proof.
  unfold main.
  destruct (main_stages code) as (toks & lexer & r & parser & -> & _ & -> & H).
  destruct r as [ast|err]; [|done].
  pose proof (run_safe ast Interpreter.init H) as R.
  destruct (Interpreter.run ast Interpreter.init) as [[vs|err] s]; [|done].
  intros [= <-]. simpl. split; [done|]. apply R.
  intros name v. simpl. by rewrite lookup_empty.
Qed.

Lemma script_values_are_numbers_witness :
  Forall (fun node => assignment_of_expression node = true)
    [Assign (Identifier "x") (BinOp (Number 5) "/" (Number 2))]
  /\ Forall (fun v => v <> VNone) [VFloat 2.5]
  /\ forall name v,
       ({[ "x" := VFloat 2.5 ]} : gmap string val) !! name = Some v ->
       v <> VNone.
Proof.
  refine (script_values_are_numbers "x = 5 / 2"
           {| out_tokens := [ {| type := "IDENTIFIER"; value := "x" |};
                              {| type := "ASSIGN"; value := "=" |};
                              {| type := "NUMBER"; value := "5" |};
                              {| type := "DIVIDE"; value := "/" |};
                              {| type := "NUMBER"; value := "2" |} ];
              out_ast := [Assign (Identifier "x")
                            (BinOp (Number 5) "/" (Number 2))];
              out_results := [VFloat 2.5];
              out_variables := {[ "x" := VFloat 2.5 ]} |} _).
  vm_compute. reflexivity.
Defined.

(** X17: statements need no separator. An assignment ends where its
    expression ends: for any two names and numbers, the tokens of
    [x = a y = b], with no NEWLINE between the statements, parse to the
    two assignments, and the script on [x = 1 y = x + 1] binds [x] to 1
    and [y] to 2. *)
Theorem statements_need_no_separator :
  (forall x y a b na nb,
     Py.int a = Some na -> Py.int b = Some nb ->
     exists self',
       Parser.parse
         (Parser.init [ {| type := "IDENTIFIER"; value := x |};
                        {| type := "ASSIGN"; value := "=" |};
                        {| type := "NUMBER"; value := a |};
                        {| type := "IDENTIFIER"; value := y |};
                        {| type := "ASSIGN"; value := "=" |};
                        {| type := "NUMBER"; value := b |} ])
       = Some (Ok [ Assign (Identifier x) (Number na);
                    Assign (Identifier y) (Number nb) ], self'))
  /\ (exists out,
        main "x = 1 y = x + 1" = Some (Ok out)
        /\ out_variables out = {[ "x" := VInt 1; "y" := VInt 2 ]}).
Proof.
  split.
  - intros x y a b na nb Ha Hb.
    assert (Number_init a = Ok (Number na)) as Ha'
      by (unfold Number_init; by rewrite Ha).
    assert (Number_init b = Ok (Number nb)) as Hb'
      by (unfold Number_init; by rewrite Hb).
    unfold Parser.parse, Parser.parse_from. eexists.
    change (Parser.fuel_for _) with 30. repeat parser_run.
  - eexists. split; [vm_compute; reflexivity|]. vm_compute. reflexivity.
Qed.

Lemma statements_need_no_separator_witness :
  exists self',
    Parser.parse
      (Parser.init [ {| type := "IDENTIFIER"; value := "x" |};
                     {| type := "ASSIGN"; value := "=" |};
                     {| type := "NUMBER"; value := "1" |};
                     {| type := "IDENTIFIER"; value := "y" |};
                     {| type := "ASSIGN"; value := "=" |};
                     {| type := "NUMBER"; value := "2" |} ])
    = Some (Ok [ Assign (Identifier "x") (Number 1);
                 Assign (Identifier "y") (Number 2) ], self').
Proof.
  exact (proj1 statements_need_no_separator "x" "y" "1" "2" 1%Z 2%Z
           eq_refl eq_refl).
Defined.

(** X18: the type of a result. With the operands of a [+], [-] or [*]
    node evaluated, two [int]s give the [int] of integer arithmetic; as
    soon as one operand is a [float], the node gives the [float] that the
    operation of IEEE 754 makes of the two operands as [float]s, the
    [int] one converted by [float]. So a quotient stays a [float] in what
    is computed from it: [x = 4 / 2] and [y = x * 2] bind [y] to the
    [float] 4.0. *)
Theorem result_types :
  (forall l r self vl vr s1 s2,
     Interpreter.evaluate l self = (Ok vl, s1) ->
     Interpreter.evaluate r s1 = (Ok vr, s2) ->
     (forall a b,
        vl = VInt a -> vr = VInt b ->
        Interpreter.evaluate (BinOp l "+" r) self = (Ok (VInt (a + b)), s2)
        /\ Interpreter.evaluate (BinOp l "-" r) self
           = (Ok (VInt (a - b)), s2)
        /\ Interpreter.evaluate (BinOp l "*" r) self
           = (Ok (VInt (a * b)), s2))
     /\ (forall x y,
           Interpreter.as_float vl = Ok x ->
           Interpreter.as_float vr = Ok y ->
           (exists f, vl = VFloat f) \/ (exists f, vr = VFloat f) ->
           Interpreter.evaluate (BinOp l "+" r) self
           = (Ok (VFloat (PrimFloat.add x y)), s2)
           /\ Interpreter.evaluate (BinOp l "-" r) self
              = (Ok (VFloat (PrimFloat.sub x y)), s2)
           /\ Interpreter.evaluate (BinOp l "*" r) self
              = (Ok (VFloat (PrimFloat.mul x y)), s2)))
  /\ (exists out,
        main ("x = 4 / 2" +:+ String "010" "y = x * 2") = Some (Ok out)
        /\ out_variables out = {[ "x" := VFloat 2; "y" := VFloat 4 ]}).
Proof.
  split.
  - intros l r self vl vr s1 s2 El Er. split.
    + intros a b -> ->. simpl. by rewrite El, Er.
    + intros x y Hx Hy Hf. simpl. rewrite El, Er. simpl.
      unfold Interpreter.arith, Interpreter.floats.
      destruct vl as [a|fl|], vr as [b|fr|]; try done;
        try (destruct Hf as [[? [=]]|[? [=]]]; fail);
        rewrite Hx, Hy; done.
  - eexists. split; [vm_compute; reflexivity|]. vm_compute. reflexivity.
Qed.

Lemma result_types_witness :
  Interpreter.evaluate (BinOp (Identifier "x") "+" (Number 1))
    {| Interpreter.variables := {[ "x" := VFloat 2.5 ]} |}
  = (Ok (VFloat 3.5), {| Interpreter.variables := {[ "x" := VFloat 2.5 ]} |}).
Proof.
  refine (proj1 (proj2 (proj1 result_types
            (Identifier "x") (Number 1)
            {| Interpreter.variables := {[ "x" := VFloat 2.5 ]} |}
            (VFloat 2.5) (VInt 1) _ _ _ _) 2.5%float 1%float _ _ _)).
  - vm_compute. reflexivity.
  - reflexivity.
  - reflexivity.
  - vm_compute. reflexivity.
  - left. by eexists.
Defined.
